(** * npm-cache: the cache coordination engine of
      cacheDependencyManagers/baseCacheDependencyManager.js and the loading
      task of index.js, embedded as a state-and-exception monad over a model
      of the file system, the advisory locks and the log. *)

From Stdlib Require Import Ascii ZArith.
From stdpp Require Import gmap strings list fin_maps.

Local Open Scope Z_scope.

(** ** Node's [path] module (POSIX flavour)

    [path.resolve] is the only function of the module that the manager
    calls.  It walks its arguments from right to left, gluing them with
    a slash until one of them is absolute, falls back on [process.cwd()]
    and normalises the outcome segment by segment. *)
Module Path.

Definition sep : ascii := "/"%char.

(** Splitting at every slash; empty segments are kept, as in
    [normalizeString], which skips them later. *)
Fixpoint split (s : string) : list string :=
  match s with
  | EmptyString => [""]
  | String c r =>
      if Ascii.eqb c sep then "" :: split r
      else match split r with
           | h :: t => String c h :: t
           | [] => [String c ""]
           end
  end.

Fixpoint join (segs : list string) : string :=
  match segs with
  | [] => ""
  | [a] => a
  | a :: rest => a +:+ "/" +:+ join rest
  end.

(** One step of [normalizeString] with [allowAboveRoot = false]: the
    stack of segments kept so far and the next raw segment. *)
Definition norm_step (stack : list string) (seg : string) : list string :=
  if String.eqb seg "" then stack
  else if String.eqb seg "." then stack
  else if String.eqb seg ".." then removelast stack
  else stack ++ [seg].

Definition normalize (segs : list string) : list string :=
  fold_left norm_step segs [].

Definition isAbsolute (p : string) : bool :=
  match p with
  | String c _ => Ascii.eqb c sep
  | EmptyString => false
  end.

(** The right-to-left loop of [resolve]; [rargs] holds the arguments
    still to visit, last one first.  [process.cwd()] is absolute on
    POSIX, so the loop always ends with [resolvedAbsolute = true]. *)
Fixpoint resolve_loop (cwd : string) (rargs : list string)
         (resolvedPath : string) : string :=
  match rargs with
  | [] => cwd +:+ "/" +:+ resolvedPath
  | p :: rest =>
      if String.eqb p "" then resolve_loop cwd rest resolvedPath
      else
        let resolvedPath := p +:+ "/" +:+ resolvedPath in
        if isAbsolute p then resolvedPath
        else resolve_loop cwd rest resolvedPath
  end.

Definition resolve (cwd : string) (args : list string) : string :=
  "/" +:+ join (normalize (split (resolve_loop cwd (rev args) ""))).

Fixpoint no_sep (s : string) : bool :=
  match s with
  | EmptyString => true
  | String c r => negb (Ascii.eqb c sep) && no_sep r
  end.

(** A segment that normalisation keeps as it is. *)
Definition plain (seg : string) : bool :=
  negb (String.eqb seg "") && negb (String.eqb seg ".")
  && negb (String.eqb seg "..") && no_sep seg.

(** An absolute path in normal form, other than the root. *)
Definition normal (p : string) : bool :=
  match p with
  | String c r => Ascii.eqb c sep && forallb plain (split r)
  | EmptyString => false
  end.

(** What the loop of [resolve] puts in front of the slash. *)
Fixpoint resolve_head (cwd : string) (rargs : list string) : string :=
  match rargs with
  | [] => cwd
  | p :: rest =>
      if String.eqb p "" then resolve_head cwd rest
      else if isAbsolute p then p
      else resolve_head cwd rest +:+ "/" +:+ p
  end.

(** [resolve] in terms of its segments. *)
Definition resolve_segs (cwd : string) (args : list string) : list string :=
  normalize (split (resolve_head cwd (rev args))).

End Path.


(** ** Values, files and the world *)

(** The JavaScript values that travel through the callbacks of the
    manager.  [VError] is an [Error] object, [VFun] a function handed in
    by a caller (the completion callback of a task). *)
Inductive value :=
| VUndefined
| VNull
| VStr (s : string)
| VError (message : string)
| VFun (id : nat).

Definition truthy (v : value) : bool :=
  match v with
  | VUndefined | VNull => false
  | VStr s => negb (String.eqb s "")
  | VError _ | VFun _ => true
  end.

(** [err.message] *)
Definition message (v : value) : string :=
  match v with
  | VError m => m
  | _ => "undefined"
  end.

(** String conversion as done by ['...' + err]. *)
Definition toString (v : value) : string :=
  match v with
  | VUndefined => "undefined"
  | VNull => "null"
  | VStr s => s
  | VError m => if String.eqb m "" then "Error" else "Error: " +:+ m
  | VFun _ => "function () { [native code] }"
  end.

(** The first formal parameter of a JavaScript function applied to
    [args]: missing arguments read as [undefined], extra ones are
    dropped. *)
Definition arg0 (args : list value) : value := nth 0 args VUndefined.

(** Content of a regular file: raw bytes, or a complete gzip-compressed
    tar whose entries are named relative to the directory it was packed
    from.  [Bytes] never stands for a complete gzip stream: bytes that
    begin with the gzip magic number are a stream that was cut short. *)
Inductive node :=
| Dir
| File (d : fdata)
with fdata :=
| Bytes (s : string)
| Targz (entries : list (string * node)).

Inductive open_flag := FlagR | FlagW.
Inductive lock_op := LockSh | LockEx | LockUn.

Inductive event :=
| LogInfo (msg : string)
| LogError (msg : string)
| Exec (command : string)
| Remove (path : string)
| EnsureFile (path : string)
| Open (path : string) (flag : open_flag) (fd : nat)
| Flock (fd : nat) (op : lock_op)
| Compress (src dst : string)
| Rename (src dst : string)
| Decompress (src dest : string)
| Invoke (callee : value) (args : list value).

(** The state one load operation runs against.  [fs] is keyed by
    absolute normalised paths; [history] keeps the file system as it
    stood after each mutation, oldest first; [locks] are the advisory
    locks this process holds, by descriptor. *)
Record world := World {
  fs : gmap string node;
  open_files : gmap nat string;
  next_fd : nat;
  locks : gmap nat lock_op;
  trace : list event;
  history : list (gmap string node)
}.

(** What the surroundings decide: the working directory, the tools on
    the PATH, the install subprocess and the failures of the
    asynchronous I/O calls.  [salvaged] holds, for a cache file that is
    a gzip stream cut short, the entries that were read from it and
    reached the disk before zlib gave up. *)
Record env := Env {
  cwd : string;
  which : string -> bool;
  exec : string -> gmap string node -> Z * gmap string node;
  flock_error : nat -> lock_op -> option string;
  compress_error : string -> string -> option (string * fdata);
  rename_error : string -> string -> option string;
  decompress_error : string -> option (string * nat);
  salvaged : string -> list (string * node)
}.

(** The Dependency Config record a manager is built from, with the
    fields the manager reads.  [getFileHash] and [getCliVersion] are
    the functions of the config module. *)
Record config := Config {
  cliName : string;
  installCommand : string;
  installOptions : string;
  installDirectory : string;
  configPath : string;
  cacheDirectory : string;
  forceRefresh : bool;
  getFileHash : string -> string;
  getCliVersion : unit -> string
}.

(** ** The monad: state over [world], with JavaScript exceptions *)

Inductive result (A : Type) :=
| Done (a : A) (w : world)
| Thrown (e : value) (w : world).
Arguments Done {A} a w.
Arguments Thrown {A} e w.

Definition M (A : Type) : Type := world -> result A.

Definition ret {A} (a : A) : M A := fun w => Done a w.

Definition bind {A B} (m : M A) (k : A -> M B) : M B :=
  fun w => match m w with
           | Done a w' => k a w'
           | Thrown e w' => Thrown e w'
           end.

Definition throw {A} (e : value) : M A := fun w => Thrown e w.

Declare Scope js_scope.
Delimit Scope js_scope with js.
Notation "'let!' x ':=' m 'in' k" := (bind m (fun x => k))
  (at level 10, x name, m at level 100, k at level 200) : js_scope.
Notation "m ';;;' k" := (bind m (fun _ => k))
  (at level 100, k at level 200, right associativity) : js_scope.
Local Open Scope js_scope.

Definition emit (e : event) : M unit :=
  fun w => Done tt (World (fs w) (open_files w) (next_fd w) (locks w)
                          (trace w ++ [e]) (history w)).

(** Every mutation of the file system leaves a snapshot behind. *)
Definition set_fs (f : gmap string node) : M unit :=
  fun w => Done tt (World f (open_files w) (next_fd w) (locks w)
                          (trace w) (history w ++ [f])).

Definition set_lock (fd : nat) (op : lock_op) : M unit :=
  fun w => Done tt (World (fs w) (open_files w) (next_fd w)
                          (match op with
                           | LockUn => delete fd (locks w)
                           | _ => <[fd := op]> (locks w)
                           end)
                          (trace w) (history w)).

Definition get_fs : M (gmap string node) := fun w => Done (fs w) w.

(** A JavaScript closure of the model, applied to its argument list. *)
Definition Callback := list value -> M unit.

(** ** The libraries the manager drives

    [fs]/[fs-extra], [fs-ext], [shelljs], [which], [tar.gz],
    [decompress] and [async], each reduced to the calls the manager
    makes.  Synchronous calls throw, asynchronous ones hand their error
    to the callback.  Whether an asynchronous call fails is up to the
    surroundings ([env]); permissions and quotas of the synchronous
    calls are left out. *)
Section Libraries.
Variable E : env.

(** The operating system reads a relative path from the working
    directory. *)
Definition abs (p : string) : string := Path.resolve (cwd E) [p].

(** [under d p]: [p] is [d] or lies below it. *)
Definition under (d p : string) : bool :=
  String.eqb p d
  || String.prefix (if String.eqb d "/" then "/" else d +:+ "/") p.

(** The directories above an absolute path, the root first. *)
Definition ancestors (p : string) : list string :=
  let segs := Path.normalize (Path.split p) in
  map (fun k => "/" +:+ Path.join (take k segs)) (seq 0 (length segs)).

Definition mkdir_missing (m : gmap string node) (d : string) : gmap string node :=
  match m !! d with
  | None => <[d := Dir]> m
  | Some _ => m
  end.

Definition mkdirs (dirs : list string) (m : gmap string node) : gmap string node :=
  fold_left mkdir_missing dirs m.

Definition is_file (m : gmap string node) (p : string) : bool :=
  match m !! p with
  | Some (File _) => true
  | _ => false
  end.

(** [fs.existsSync].  The paths the manager asks about are results
    of [path.resolve], never empty, or come from the config; the empty
    path, which Node reports as missing, is read here like any other
    relative path. *)
Definition existsSync (p : string) : M bool :=
  fun w => Done (bool_decide (is_Some (fs w !! abs p))) w.

(** The file system without [d] and all below it. *)
Definition cleared (d : string) (m : gmap string node) : gmap string node :=
  filter (fun kv => under d kv.1 = false) m.

(** [fs.removeSync]: the path and all below it go; a missing path is
    not an error. *)
Definition removeSync (p : string) : M unit :=
  emit (Remove (abs p));;;
  let! m := get_fs in
  set_fs (cleared (abs p) m).

(** [fs.ensureFileSync]: nothing if the path exists, else the missing
    directories above it are made and an empty file is written. *)
Definition ensureFileSync (p : string) : M unit :=
  emit (EnsureFile (abs p));;;
  let! m := get_fs in
  match m !! abs p with
  | Some _ => ret tt
  | None =>
      if existsb (is_file m) (ancestors (abs p))
      then throw (VError ("ENOTDIR: not a directory, mkdir " +:+ abs p))
      else set_fs (<[abs p := File (Bytes "")]> (mkdirs (ancestors (abs p)) m))
  end.

(** [fs.openSync]: ['r'] needs the path to exist; ['w'] creates or
    truncates a regular file (the writer calls it right after
    [ensureFileSync], so the directories above are there).  The
    descriptor is a fresh number. *)
Definition openSync (p : string) (flag : open_flag) : M nat :=
  let! m := get_fs in
  let! _ :=
    match flag, m !! abs p with
    | FlagR, None =>
        throw (VError ("ENOENT: no such file or directory, open " +:+ abs p))
    | FlagR, Some _ => ret tt
    | FlagW, Some Dir =>
        throw (VError ("EISDIR: illegal operation on a directory, open " +:+ abs p))
    | FlagW, _ => set_fs (<[abs p := File (Bytes "")]> m)
    end in
  fun w =>
    let fd := next_fd w in
    Done fd (World (fs w) (<[fd := abs p]> (open_files w)) (S fd) (locks w)
                   (trace w ++ [Open (abs p) flag fd]) (history w)).

(** [fsExt.flockSync]: waits until the lock is granted, throws when
    the system call fails. *)
Definition flockSync (fd : nat) (op : lock_op) : M unit :=
  emit (Flock fd op);;;
  match flock_error E fd op with
  | Some msg => throw (VError msg)
  | None => set_lock fd op
  end.

(** [fsExt.flock], asynchronous. *)
Definition flock (fd : nat) (op : lock_op) (cb : Callback) : M unit :=
  emit (Flock fd op);;;
  match flock_error E fd op with
  | Some msg => cb [VError msg]
  | None => set_lock fd op;;; cb [VNull]
  end.

(** [fs.rename], asynchronous. *)
Definition rename (src dst : string) (cb : Callback) : M unit :=
  emit (Rename (abs src) (abs dst));;;
  let! m := get_fs in
  match m !! abs src, rename_error E (abs src) (abs dst) with
  | None, _ => cb [VError ("ENOENT: no such file or directory, rename " +:+ abs src)]
  | Some _, Some msg => cb [VError msg]
  | Some n, None => set_fs (<[abs dst := n]> (delete (abs src) m));;; cb [VNull]
  end.

(** [shell.exec(command).code]: the subprocess runs to its end and
    may change the file system. *)
Definition shell_exec (command : string) : M Z :=
  emit (Exec command);;;
  let! m := get_fs in
  let '(code, m') := exec E command m in
  set_fs m';;; ret code.

(** [which.sync] inside [try]: [true] when the tool is found, [false]
    when the call throws. *)
Definition which_sync (cli : string) : M bool := ret (which E cli).

Definition drop_string (n : nat) (s : string) : string :=
  String.substring n (String.length s - n) s.

(** The tar entries of directory [src]: everything under it, named
    from the directory that holds [src]. *)
Definition pack (src : string) (m : gmap string node) : list (string * node) :=
  let parent := "/" +:+ Path.join (removelast (Path.normalize (Path.split src))) in
  let skip := if String.eqb parent "/" then 1%nat else S (String.length parent) in
  map (fun kv => (drop_string skip kv.1, kv.2))
      (map_to_list (filter (fun kv => under src kv.1 = true) m)).

(** [new targz().compress(src, dst, cb)]: on failure [dst] holds
    whatever had been written. *)
Definition compress (src dst : string) (cb : Callback) : M unit :=
  emit (Compress (abs src) (abs dst));;;
  let! m := get_fs in
  match compress_error E (abs src) (abs dst) with
  | Some (msg, partial) =>
      set_fs (<[abs dst := File partial]> m);;; cb [VError msg]
  | None =>
      set_fs (<[abs dst := File (Targz (pack (abs src) m))]> m);;; cb [VNull]
  end.

(** [path.join(dest, name)] for an absolute [dest]. *)
Definition join2 (dest name : string) : string :=
  "/" +:+ Path.join (Path.normalize (Path.split (dest +:+ "/" +:+ name))).

(** [is-gzip]: the first three bytes are 1f 8b 08. *)
Definition gzip_magic : string :=
  String (ascii_of_nat 31) (String (ascii_of_nat 139) (String (ascii_of_nat 8) "")).

Definition isGzip (bytes : string) : bool := String.prefix gzip_magic bytes.

(** Content that begins like gzip data and is no complete stream. *)
Definition cut_short (contents : fdata) : bool :=
  match contents with
  | Bytes s => isGzip s
  | Targz _ => false
  end.

(** The last segment of an absolute path: the name [vinyl-fs] gives
    the file it has read, relative to the directory that holds it. *)
Definition basename (p : string) : string :=
  default "" (last (Path.normalize (Path.split p))).

(** What [decompress-targz] hands on of the content [vinyl-fs] has
    read at [src]: the entries of a complete archive; content that is
    no gzip data untouched, as one file under its own name. *)
Definition handed_on (src : string) (contents : fdata) : list (string * node) :=
  match contents with
  | Targz entries => entries
  | Bytes s => [(basename src, File (Bytes s))]
  end.

(** One entry on its way through [decompress-targz] and [vinyl-fs]: a
    directory entry is dropped, so a directory comes back only as the
    directory above a file; for a file the missing directories above
    [path.join(dest, name)] are made and the file is written there.
    Where a file stands in the way of a directory, or a directory in
    the way of the file, the write fails in Node: that is one of the
    failures of the call, which are for [decompress_error] to tell. *)
Definition write_entry (dest : string) (m : gmap string node)
           (entry : string * node) : gmap string node :=
  match entry.2 with
  | Dir => m
  | File contents =>
      let p := join2 dest entry.1 in
      <[p := File contents]> (mkdirs (ancestors p) m)
  end.

Definition write_entries (dest : string) (entries : list (string * node))
           (m : gmap string node) : gmap string node :=
  fold_left (write_entry dest) entries m.

(** [new Decompress().src(src).dest(dest).use(Decompress.targz()).run(cb)].
    The plugin looks at the content [vinyl-fs] has read.  A gzip
    stream that was cut short makes zlib emit an error nobody listens
    to: the process ends with that exception and the callback is never
    called; the entries read before that may have been written.
    Otherwise what the plugin hands on is written into
    [dest] entry by entry: the entries of a complete archive, or the
    one file that is no gzip data, for which no error is raised.  An
    I/O failure stops the writing after some of the entries, with the
    error for the callback.  A directory is handed on and made in
    [dest].  The manager holds the
    file open by then, so a missing [src], for which [vinyl-fs] reads
    nothing, is not reached from it. *)
Definition decompress (src dest : string) (cb : Callback) : M unit :=
  emit (Decompress (abs src) (abs dest));;;
  let! m := get_fs in
  match m !! abs src with
  | Some (File contents) =>
      if cut_short contents then
        set_fs (write_entries (abs dest) (salvaged E (abs src)) m);;;
        throw (VError "unexpected end of file")
      else
        let entries := handed_on (abs src) contents in
        match decompress_error E (abs src) with
        | Some (msg, written) =>
            set_fs (write_entries (abs dest) (take written entries) m);;;
            cb [VError msg]
        | None =>
            set_fs (write_entries (abs dest) entries m);;; cb [VNull]
        end
  | Some Dir =>
      match decompress_error E (abs src) with
      | Some (msg, _) => cb [VError msg]
      | None =>
          let p := join2 (abs dest) (basename (abs src)) in
          set_fs (mkdirs (ancestors p ++ [p]) m);;; cb [VNull]
      end
  | None => cb [VNull]
  end.

(** [shell.mkdir('-p', dir)] for a [dir] that does not exist: the
    missing directories above it and [dir] itself are made.  Where a
    regular file is in the way [fs.mkdirSync] throws, and shelljs,
    as it was when the handler was written, ends the process over an
    error that is not one of its own. *)
Definition shell_mkdir_p (dir : string) : M unit :=
  let! m := get_fs in
  if existsb (is_file m) (ancestors (abs dir))
  then throw (VError "shell.js: internal error")
  else set_fs (mkdirs (ancestors (abs dir) ++ [abs dir]) m).

(** [async.series]: the tasks run in order, the first truthy error
    ends the series, and the final callback gets it; after the last
    task it is called without an error ([undefined] in async 0.x,
    [null] later: falsy either way, and nobody reads the results that
    follow). *)
Fixpoint series (tasks : list (Callback -> M unit)) (final : Callback) : M unit :=
  match tasks with
  | [] => final [VUndefined]
  | task :: rest =>
      task (fun args => if truthy (arg0 args) then final [arg0 args]
                        else series rest final)
  end.

Definition logInfo (msg : string) : M unit := emit (LogInfo msg).
Definition logError (msg : string) : M unit := emit (LogError msg).

(** [String.prototype.trim] on the ASCII white space. *)
Fixpoint trim_left (s : string) : string :=
  match s with
  | String c r => if Ascii.is_space c then trim_left r else s
  | EmptyString => s
  end.

Definition trim (s : string) : string :=
  String.rev (trim_left (String.rev (trim_left s))).

(** Calling a value: only a function can be called. *)
Definition invoke (f : value) (args : list value) : M unit :=
  emit (Invoke f args);;;
  match f with
  | VFun _ => ret tt
  | _ => throw (VError ("TypeError: " +:+ toString f +:+ " is not a function"))
  end.

End Libraries.

(** ** CacheDependencyManager *)
Section CacheDependencyManager.
Variable E : env.
Variable self : config.

(** Given a path relative to the working directory of the process,
    returns a normalised absolute path. *)
Definition getAbsolutePath (relativePath : string) : string :=
  Path.resolve (cwd E) [cwd E; relativePath].

Definition cacheLogInfo (msg : string) : M unit :=
  logInfo ("[" +:+ cliName self +:+ "] " +:+ msg).

Definition cacheLogError (error : string) : M unit :=
  logError ("[" +:+ cliName self +:+ "] " +:+ error).

(** Returns [null] or the error string. *)
Definition installDependencies : M value :=
  let installCommand' := trim (installCommand self +:+ " " +:+ installOptions self) in
  cacheLogInfo ("running [" +:+ installCommand' +:+ "]...");;;
  let! code := shell_exec E installCommand' in
  if negb (code =? 0) then
    let error := "error running " +:+ installCommand self in
    cacheLogError error;;; ret (VStr error)
  else
    cacheLogInfo ("installed " +:+ cliName self +:+ " dependencies, now archiving");;;
    ret VNull.

Definition archiveDependencies (cacheDirectory' cachePath : string)
           (callback : Callback) : M unit :=
  let installedDirectory := getAbsolutePath (installDirectory self) in
  cacheLogInfo ("archiving dependencies from " +:+ installedDirectory);;;
  let! present := existsSync E installedDirectory in
  if negb present then
    cacheLogInfo "skipping archive. Install directory does not exist.";;;
    callback []
  else
    let tmpCachePath := cachePath +:+ "~" in
    ensureFileSync E tmpCachePath;;;
    let! fd := openSync E tmpCachePath FlagW in
    flockSync E fd LockEx;;;
    let! cached := existsSync E cachePath in
    if cached then
      cacheLogInfo "skipping archive because target cache file already exists.";;;
      callback []
    else
      series
        [ (fun cb =>
             compress E installedDirectory tmpCachePath
               (fun args =>
                  let compressErr := arg0 args in
                  if truthy compressErr then
                    let error := "error tar-ing " +:+ installedDirectory +:+ ": "
                                 +:+ message compressErr in
                    cacheLogError error;;; cb [VStr error]
                  else
                    cacheLogInfo "installed and archived dependencies";;;
                    cb [VNull]));
          (fun cb => rename E tmpCachePath cachePath cb);
          (fun cb => flock E fd LockUn cb) ]
        callback.

Definition extractDependencies (cachePath : string) (callback : Callback) : M unit :=
  let installDirectory' := getAbsolutePath (installDirectory self) in
  cacheLogInfo ("clearing installed dependencies at " +:+ installDirectory');;;
  removeSync E installDirectory';;;
  cacheLogInfo "...cleared";;;
  cacheLogInfo ("extracting dependencies from " +:+ cachePath);;;
  let! fd := openSync E cachePath FlagR in
  series
    [ (fun cb => flock E fd LockSh cb);
      (fun cb => decompress E cachePath (cwd E) cb);
      (fun cb => flock E fd LockUn cb) ]
    (fun args =>
       let err := arg0 args in
       (if truthy err then
          let error := "Error extracting " +:+ cachePath +:+ ": " +:+ toString err in
          cacheLogError error
        else cacheLogInfo "done extracting");;;
       callback [err]).

(** The two halves of the Cache Key Resolver. *)
Definition cacheDirectoryOf : string :=
  Path.resolve (cwd E) [cacheDirectory self; cliName self; getCliVersion self tt].

Definition cachePathOf : string :=
  Path.resolve (cwd E) [cacheDirectoryOf; getFileHash self (configPath self) +:+ ".tar.gz"].

Definition loadDependencies (callback : value) : M unit :=
  let! configExists := existsSync E (configPath self) in
  if negb configExists then
    cacheLogInfo ("Dependency config file " +:+ configPath self
                  +:+ " does not exist. Skipping install");;;
    invoke callback [VNull]
  else
    cacheLogInfo "config file exists";;;
    let! found := which_sync E (cliName self) in
    if negb found then
      let error := "Command line tool " +:+ cliName self +:+ " not installed" in
      cacheLogError error;;;
      invoke callback [VStr error]
    else
      cacheLogInfo "cli exists";;;
      let hash := getFileHash self (configPath self) in
      cacheLogInfo ("hash of " +:+ configPath self +:+ ": " +:+ hash);;;
      let cacheDirectory' := cacheDirectoryOf in
      let cachePath := cachePathOf in
      let! hit := (if negb (forceRefresh self) then existsSync E cachePath
                   else ret false) in
      if hit then
        cacheLogInfo "cache exists";;;
        extractDependencies cachePath
          (fun args =>
             let extractErr := arg0 args in
             let error := if truthy extractErr then extractErr else VNull in
             invoke callback [error])
      else
        let! error := installDependencies in
        if negb (match error with VNull => true | _ => false end) then
          invoke callback [error]
        else
          archiveDependencies cacheDirectory' cachePath
            (fun args =>
               let archiveError := arg0 args in
               let error := if truthy archiveError then archiveError else error in
               invoke callback [error]).

(** The task index.js pushes for a manager: it calls the one-parameter
    [loadDependencies] with two arguments. *)
Definition loadTask (optsCacheDirectory : string) (callback : value) : M unit :=
  let arguments := [VStr optsCacheDirectory; callback] in
  loadDependencies (arg0 arguments).

End CacheDependencyManager.

(** ** Reading a run

    The vocabulary of the statements below: worlds that differ by log
    lines, the events and snapshots a run has added, kinds of events,
    and what it means for a run to get to its callback. *)

(** The world after some events were recorded and nothing else
    happened. *)
Definition logged (w : world) (events : list event) : world :=
  World (fs w) (open_files w) (next_fd w) (locks w) (trace w ++ events) (history w).

(** The world a run ends in. *)
Definition outcome_world {A} (r : result A) : world :=
  match r with
  | Done _ w => w
  | Thrown _ w => w
  end.

(** The events, and the file-system snapshots, of a run that started
    in [w0] and stands at [w]. *)
Definition events_since (w0 w : world) : list event :=
  drop (length (trace w0)) (trace w).

Definition snapshots_since (w0 w : world) : list (gmap string node) :=
  drop (length (history w0)) (history w).

Definition exists_at (E : env) (w : world) (p : string) : bool :=
  bool_decide (is_Some (fs w !! abs E p)).


(** *** Kinds of events *)

Definition is_exec (e : event) : bool :=
  match e with
  | Exec _ => true
  | _ => false
  end.

Definition is_compress (e : event) : bool :=
  match e with
  | Compress _ _ => true
  | _ => false
  end.

Definition is_rename (e : event) : bool :=
  match e with
  | Rename _ _ => true
  | _ => false
  end.

Definition is_invoke (e : event) : bool :=
  match e with
  | Invoke _ _ => true
  | _ => false
  end.

(** Events of the archive writer past its first log line. *)
Definition is_archiving (e : event) : bool :=
  match e with
  | EnsureFile _ | Open _ FlagW _ | Flock _ LockEx | Compress _ _ | Rename _ _ => true
  | _ => false
  end.

Definition not_exec (e : event) : bool := negb (is_exec e).
Definition not_compress (e : event) : bool := negb (is_compress e).
Definition not_invoke (e : event) : bool := negb (is_invoke e).
Definition not_archiving (e : event) : bool := negb (is_archiving e).
Definition not_compress_or_rename (e : event) : bool :=
  negb (is_compress e) && negb (is_rename e).

(** No function supplied by a caller is called. *)
Definition calls_no_function (e : event) : bool :=
  match e with
  | Invoke (VFun _) _ => false
  | _ => true
  end.

(** The events the archive writer can leave in the trace. *)
Definition writer_event (e : event) : bool :=
  match e with
  | LogInfo _ | LogError _ | EnsureFile _ | Open _ FlagW _
  | Flock _ LockEx | Flock _ LockUn | Compress _ _ | Rename _ _ => true
  | _ => false
  end.

(** The events the archive reader can leave in the trace. *)
Definition reader_event (e : event) : bool :=
  match e with
  | LogInfo _ | LogError _ | Remove _ | Open _ FlagR _
  | Flock _ LockSh | Flock _ LockUn | Decompress _ _ => true
  | _ => false
  end.

(** The events of [lock_tmp] below. *)
Definition locking_event (e : event) : bool :=
  match e with
  | EnsureFile _ | Open _ FlagW _ | Flock _ LockEx => true
  | _ => false
  end.

(** *** Getting to the callback *)

(** [w'] is [w] some events later, all of them of kind [P]. *)
Definition extends (P : event -> bool) (w w' : world) : Prop :=
  ∃ events, trace w' = trace w ++ events ∧ forallb P events = true.

(** A synchronous call started in [w] returns or throws, and every
    event up to there is of kind [P]. *)
Definition runs {A} (P : event -> bool) (m : M A) (w : world) : Prop :=
  (∃ a w', m w = Done a w' ∧ extends P w w')
  ∨ (∃ e w', m w = Thrown e w' ∧ extends P w w').

(** A function in callback style that, started in [w], either calls its
    callback once, last of all, or throws; up to that point every event
    is of kind [P]. *)
Definition reaches (P : event -> bool) (f : Callback -> M unit) (w : world) : Prop :=
  (∃ args w', (∀ cb, f cb w = cb args w') ∧ extends P w w')
  ∨ (∃ e w', (∀ cb, f cb w = Thrown e w') ∧ extends P w w').

(** A computation that, started in [w], ends by calling the value
    [callback], or throws before; up to that point every event is of
    kind [P]. *)
Definition lands (P : event -> bool) (callback : value) (m : M unit) (w : world) : Prop :=
  (∃ args w', m w = invoke callback args w' ∧ extends P w w')
  ∨ (∃ e w', m w = Thrown e w' ∧ extends P w w').

(** *** Stages of the operations *)

(** The world right after the install subprocess has ended: the log
    lines of the orchestrator, the command, and the file system the
    command left. *)
Definition after_install (E : env) (self : config) (w : world) : world :=
  let command := trim (installCommand self +:+ " " +:+ installOptions self) in
  let m := (exec E command (fs w)).2 in
  World m (open_files w) (next_fd w) (locks w)
        (trace w ++
         [LogInfo ("[" +:+ cliName self +:+ "] " +:+ "config file exists");
          LogInfo ("[" +:+ cliName self +:+ "] " +:+ "cli exists");
          LogInfo ("[" +:+ cliName self +:+ "] " +:+ "hash of " +:+ configPath self
                   +:+ ": " +:+ getFileHash self (configPath self));
          LogInfo ("[" +:+ cliName self +:+ "] " +:+ "running [" +:+ command +:+ "]...");
          Exec command])
        (history w ++ [m]).

(** The exit code of that subprocess. *)
Definition install_code (E : env) (self : config) (w : world) : Z :=
  (exec E (trim (installCommand self +:+ " " +:+ installOptions self)) (fs w)).1.

(** The first steps of the archive writer past its check of the install
    directory: the temporary path is created, opened for writing and
    locked exclusively. *)
Definition lock_tmp (E : env) (cachePath : string) : M nat :=
  let tmpCachePath := cachePath +:+ "~" in
  ensureFileSync E tmpCachePath;;;
  let! fd := openSync E tmpCachePath FlagW in
  flockSync E fd LockEx;;;
  ret fd.

(** A callback that does nothing. *)
Definition ignore : Callback := fun _ => ret tt.

(** ** Sample inputs

    Manager [npm] at version 10.0.0, lock file hash abc123, cache
    under the home directory, working directory /work. *)
Module Sample.

Definition npm : config :=
  Config "npm" "npm install" "" "node_modules" "/work/package.json"
         "/home/u/.package_cache" false (fun _ => "abc123") (fun _ => "10.0.0").

Definition npm_refresh : config :=
  Config "npm" "npm install" "" "node_modules" "/work/package.json"
         "/home/u/.package_cache" true (fun _ => "abc123") (fun _ => "10.0.0").

Definition cache_file : string := "/home/u/.package_cache/npm/10.0.0/abc123.tar.gz".

Definition archive : fdata :=
  Targz [("node_modules", Dir); ("node_modules/left-pad.js", File (Bytes "pad"))].

(** What [npm install] leaves behind. *)
Definition installed (m : gmap string node) : gmap string node :=
  <["/work/node_modules/left-pad.js" := File (Bytes "pad")]>
    (<["/work/node_modules" := Dir]> m).

(** A machine where everything works. *)
Definition machine : env :=
  Env "/work" (fun cli => String.eqb cli "npm")
      (fun _ m => (0, installed m))
      (fun _ _ => None) (fun _ _ => None) (fun _ _ => None) (fun _ => None)
      (fun _ => []).

(** The same machine with a failing install command. *)
Definition broken_install : env :=
  Env "/work" (fun cli => String.eqb cli "npm")
      (fun _ m => (1, m))
      (fun _ _ => None) (fun _ _ => None) (fun _ _ => None) (fun _ => None)
      (fun _ => []).

(** The same machine without the tool. *)
Definition no_tool : env :=
  Env "/work" (fun _ => false)
      (fun _ m => (0, installed m))
      (fun _ _ => None) (fun _ _ => None) (fun _ _ => None) (fun _ => None)
      (fun _ => []).

(** A machine whose disk fills up while compressing. *)
Definition disk_full : env :=
  Env "/work" (fun cli => String.eqb cli "npm")
      (fun _ m => (0, installed m))
      (fun _ _ => None) (fun _ _ => Some ("ENOSPC", Bytes "partial"))
      (fun _ _ => None) (fun _ => None) (fun _ => []).

(** A machine on which decompression stops after one entry. *)
Definition bad_read : env :=
  Env "/work" (fun cli => String.eqb cli "npm")
      (fun _ m => (0, installed m))
      (fun _ _ => None) (fun _ _ => None) (fun _ _ => None)
      (fun _ => Some ("EIO", 1%nat)) (fun _ => []).

Definition world_of (m : gmap string node) : world :=
  World m ∅ 3 ∅ [] [].

(** Only the lock file is there. *)
Definition fresh : world :=
  world_of (<["/work/package.json" := File (Bytes "{}")]>
            (<["/work" := Dir]> (<["/" := Dir]> ∅))).

(** The lock file, a stale install directory and a cache entry. *)
Definition cached : world :=
  world_of (<["/home/u/.package_cache/npm/10.0.0/abc123.tar.gz" := File archive]>
            (<["/work/node_modules/old.js" := File (Bytes "old")]>
             (<["/work/node_modules" := Dir]>
              (<["/work/package.json" := File (Bytes "{}")]>
               (<["/work" := Dir]> (<["/" := Dir]> ∅)))))).

(** An install directory, no cache entry. *)
Definition installed_world : world :=
  world_of (installed (<["/work/package.json" := File (Bytes "{}")]>
            (<["/work" := Dir]> (<["/" := Dir]> ∅)))).

(** An install directory and a cache entry written by somebody else. *)
Definition raced : world :=
  world_of (installed
            (<["/home/u/.package_cache/npm/10.0.0/abc123.tar.gz" := File archive]>
             (<["/work/package.json" := File (Bytes "{}")]>
              (<["/work" := Dir]> (<["/" := Dir]> ∅))))).

(** Nothing at all. *)
Definition nothing : world := world_of ∅.

End Sample.


(** ** The registry of managers

    [CacheDependencyManager.getAvailableManagers]: the directory of the
    module is listed once, every file name the pattern
    [/(\S+)Config\.js/] matches gives a key, and the object is kept in
    the static property [managers].  File names are read as ASCII. *)
Module Registry.

(** The pattern tried at the very start of [s]: [\S+] is greedy, so the
    group is the longest run of non-space characters that
    [Config.js] follows. *)
Fixpoint capture (s : string) : option string :=
  match s with
  | EmptyString => None
  | String c r =>
      if Ascii.is_space c then None
      else match capture r with
           | Some rest => Some (String c rest)
           | None => if String.prefix "Config.js" r then Some (String c "") else None
           end
  end.

(** [managerRegex.exec(file)], reduced to [result[1]]: the leftmost
    position where the pattern matches wins. *)
Fixpoint exec (file : string) : option string :=
  match file with
  | EmptyString => None
  | String _ r =>
      match capture file with
      | Some managerName => Some managerName
      | None => exec r
      end
  end.

(** The body of the [forEach].  An object takes no own property named
    [__proto__] from an assignment of a string. *)
Definition addAvailableManager (dirname : string) (managers : gmap string string)
           (file : string) : gmap string string :=
  match exec file with
  | None => managers
  | Some managerName =>
      if String.eqb managerName "__proto__" then managers
      else <[managerName := join2 dirname file]> managers
  end.

(** [readdirSync] is what [fs.readdirSync(__dirname)] would return;
    [managers] is the static property, [None] for [undefined].  The
    result is the object returned and the static property afterwards. *)
Definition getAvailableManagers (dirname : string) (readdirSync : list string)
           (managers : option (gmap string string))
  : gmap string string * option (gmap string string) :=
  match managers with
  | None =>
      let managers := fold_left (addAvailableManager dirname) readdirSync ∅ in
      (managers, Some managers)
  | Some managers => (managers, Some managers)
  end.

Fixpoint no_space (s : string) : bool :=
  match s with
  | EmptyString => true
  | String c r => negb (Ascii.is_space c) && no_space r
  end.

(** The last file of a listing that gives the key [name]. *)
Definition last_file (name : string) (files : list string) : option string :=
  last (filter (fun file => exec file = Some name) files).

End Registry.

(** ** The command line (index.js) *)
Module Cli.

(** The default of the [cacheDirectory] option:
    [path.resolve(HOME || HOMEPATH || USERPROFILE, '.package_cache')].
    An unset variable is [None]. *)
Definition or_else (a b : option string) : option string :=
  match a with
  | Some s => if String.eqb s "" then b else a
  | None => b
  end.

(** [None] stands for the TypeError [path.resolve] raises on
    [undefined]. *)
Definition defaultCacheDirectory (cwd : string) (HOME HOMEPATH USERPROFILE : option string)
  : option string :=
  match or_else (or_else HOME HOMEPATH) USERPROFILE with
  | Some home => Some (Path.resolve cwd [home; ".package_cache"])
  | None => None
  end.

Definition availableManagers : list (string * string) :=
  [("npm", "./cacheDependencyManagers/npmConfig.js");
   ("bower", "./cacheDependencyManagers/bowerConfig.js");
   ("composer", "./cacheDependencyManagers/composerConfig.js")].

(** [availableManagers[name]] for an own property. *)
Fixpoint own (managers : list (string * string)) (name : string) : option string :=
  match managers with
  | [] => None
  | (key, path) :: rest => if String.eqb key name then Some path else own rest name
  end.

(** [Object.keys(availableManagers)] *)
Definition defaultManagers : list string := map fst availableManagers.

(** [opts._] holds the command word and then the managers named. *)
Definition specifiedManagers (positional : list string) : list string :=
  if Nat.eqb (length positional) 1 then defaultManagers else positional.

Section Handler.
Variable E : env.
(** [require]: the config module at a path. *)
Variable require : string -> config.
(** The property names an object literal inherits; [in] finds them
    too. *)
Variable inherited : list string.

(** The body of [specifiedManagers.forEach].  For an inherited name
    [availableManagers[name]] is not a string and [require] throws. *)
Definition pushLoadTask (optsCacheDirectory : string)
           (loadTasks : list (value -> M unit)) (dependencyManagerName : string)
  : M (list (value -> M unit)) :=
  match own availableManagers dependencyManagerName with
  | Some path =>
      logInfo ("installing " +:+ dependencyManagerName +:+ " dependencies");;;
      let config := require path in
      ret (loadTasks ++ [loadTask E config optsCacheDirectory])
  | None =>
      if existsb (String.eqb dependencyManagerName) inherited then
        logInfo ("installing " +:+ dependencyManagerName +:+ " dependencies");;;
        throw (VError "path must be a string")
      else ret loadTasks
  end.

Fixpoint forEach (optsCacheDirectory : string) (names : list string)
         (loadTasks : list (value -> M unit)) : M (list (value -> M unit)) :=
  match names with
  | [] => ret loadTasks
  | name :: rest =>
      let! loadTasks := pushLoadTask optsCacheDirectory loadTasks name in
      forEach optsCacheDirectory rest loadTasks
  end.

(** The second half of the handler of [install], from the choice of
    the managers to the list handed to [async.parallel]. *)
Definition loadTasksOf (positional : list string) (optsCacheDirectory : string)
  : M (list (value -> M unit)) :=
  forEach optsCacheDirectory (specifiedManagers positional) [].

(** The handler of [install] down to the call of [async.parallel]:
    the cache directory is made when it is missing, then the tasks are
    collected. *)
Definition installDependencies (positional : list string) (optsCacheDirectory : string)
  : M (list (value -> M unit)) :=
  logInfo ("using " +:+ optsCacheDirectory +:+ " as cache directory");;;
  let! present := existsSync E optsCacheDirectory in
  (if negb present then
     shell_mkdir_p E optsCacheDirectory;;;
     logInfo "creating cache directory"
   else ret tt);;;
  loadTasksOf positional optsCacheDirectory.

End Handler.

End Cli.

(** ** More ways to read a run *)

(** Every entry of the file system other than [t] is still there,
    unchanged. *)
Definition keeps (t : string) (w w' : world) : Prop :=
  ∀ p n, p ≠ t → fs w !! p = Some n → fs w' !! p = Some n.

(** A function in callback style that calls its callback once, last of
    all, or throws, in a world related by [R] to the one it started
    in. *)
Definition ends (R : world -> world -> Prop) (f : Callback -> M unit) (w : world) : Prop :=
  (∃ args w', (∀ cb, f cb w = cb args w') ∧ R w w')
  ∨ (∃ e w', (∀ cb, f cb w = Thrown e w') ∧ R w w').

(** What a completion callback is given: one argument, [null] or a
    truthy error. *)
Definition completion (args : list value) : Prop :=
  ∃ v, args = [v] ∧ (v = VNull ∨ truthy v = true).


(** A computation that ends by giving [callback] a completion, or
    throws, with no other call of a callback on the way. *)
Definition completes (callback : value) (m : M unit) (w : world) : Prop :=
  (∃ args w', m w = invoke callback args w' ∧ completion args ∧ extends not_invoke w w')
  ∨ (∃ e w', m w = Thrown e w' ∧ extends not_invoke w w').

(** The part of [m] under directory [d] is well formed: its keys are
    absolute normal paths, and the directories between [d] and a key
    are in [m] as directories. *)
Definition tidy (E : env) (d : string) (m : gmap string node) : Prop :=
  ∀ k n, m !! k = Some n → under d k = true →
    abs E k = k ∧ ∀ a, a ∈ ancestors k → under d a = true → m !! a = Some Dir.


(** *** What an extraction leaves *)

(** The content that unpacking [entries] into [dest] gives the path
    [p]: that of the last file entry named for it.  Directory entries
    give nothing. *)
Definition unpacked_file (dest : string) (entries : list (string * node)) (p : string)
  : option fdata :=
  fold_left (fun found entry =>
               match entry.2 with
               | File contents =>
                   if String.eqb (join2 dest entry.1) p then Some contents else found
               | Dir => found
               end)
            entries None.

(** [p] is a directory above a file that unpacking [entries] into
    [dest] writes. *)
Definition above_unpacked (dest : string) (entries : list (string * node)) (p : string)
  : bool :=
  existsb (fun entry =>
             match entry.2 with
             | File _ => bool_decide (p ∈ ancestors (join2 dest entry.1))
             | Dir => false
             end)
          entries.

(** The file system [m] with [entries] unpacked into [dest], path by
    path: a file of the archive, else what [m] had, else a directory
    where one was needed above a file of the archive. *)
Definition unpacked (dest : string) (entries : list (string * node))
           (m : gmap string node) (p : string) : option node :=
  match unpacked_file dest entries p with
  | Some contents => Some (File contents)
  | None =>
      match m !! p with
      | Some n => Some n
      | None => if above_unpacked dest entries p then Some Dir else None
      end
  end.

(** What a trip through the archive keeps of [m] at a path of the
    directory [d]: the files, and the directories that hold a file of
    [d] somewhere below them.  An empty directory is lost. *)
Definition holds_file (d : string) (m : gmap string node) (p : string) : bool :=
  existsb (fun kv =>
             match kv.2 with
             | File _ => under d kv.1 && bool_decide (p ∈ ancestors kv.1)
             | Dir => false
             end)
          (map_to_list m).

Definition survives (d : string) (m : gmap string node) (p : string) : option node :=
  match m !! p with
  | Some Dir => if holds_file d m p then Some Dir else None
  | entry => entry
  end.


(** [tidy], decided by running over the entries of the map. *)
Definition tidyb (E : env) (d : string) (m : gmap string node) : bool :=
  forallb (fun kv =>
             implb (under d kv.1)
                   (String.eqb (abs E kv.1) kv.1
                    && forallb (fun a =>
                                  implb (under d a)
                                        (match m !! a with Some Dir => true | _ => false end))
                               (ancestors kv.1)))
          (map_to_list m).

(** ** More sample inputs *)
Module Scenario.

(** The module directory as it is shipped. *)
Definition dirname : string := "/usr/lib/node_modules/npm-cache/cacheDependencyManagers".

Definition files : list string :=
  ["baseCacheDependencyManager.js"; "bowerConfig.js"; "composerConfig.js"; "npmConfig.js"].

(** The enumerable and other names an object literal inherits from
    [Object.prototype]. *)
Definition inherited : list string :=
  ["constructor"; "hasOwnProperty"; "isPrototypeOf"; "propertyIsEnumerable";
   "toLocaleString"; "toString"; "valueOf"; "__proto__";
   "__defineGetter__"; "__defineSetter__"; "__lookupGetter__"; "__lookupSetter__"].

Definition bower : config :=
  Config "bower" "bower install" "" "bower_components" "/work/bower.json"
         "/home/u/.package_cache" false (fun _ => "def456") (fun _ => "1.8.0").

Definition composer : config :=
  Config "composer" "composer install" "" "vendor" "/work/composer.lock"
         "/home/u/.package_cache" false (fun _ => "0a1b2c") (fun _ => "2.0.0").

Definition require (path : string) : config :=
  if String.eqb path "./cacheDependencyManagers/bowerConfig.js" then bower
  else if String.eqb path "./cacheDependencyManagers/composerConfig.js" then composer
  else Sample.npm.

(** The cache entry an earlier run wrote from the install directory of
    [Sample.installed_world], and nothing installed. *)
Definition restored_from : gmap string node := fs Sample.installed_world.

Definition packed : world :=
  Sample.world_of
    (<[Sample.cache_file := File (Targz (pack "/work/node_modules" restored_from))]>
       (<["/work/package.json" := File (Bytes "{}")]>
          (<["/work" := Dir]> (<["/" := Dir]> ∅)))).

(** A manager that installs into the directory its cache lies in. *)
Definition nested : config :=
  Config "npm" "npm install" "" "node_modules" "/work/package.json"
         "node_modules/.cache" false (fun _ => "abc123") (fun _ => "10.0.0").

Definition nested_world : world :=
  Sample.world_of
    (<["/work/node_modules/.cache/npm/10.0.0/abc123.tar.gz" := File Sample.archive]>
       (<["/work/node_modules" := Dir]>
          (<["/work/package.json" := File (Bytes "{}")]>
             (<["/work" := Dir]> (<["/" := Dir]> ∅))))).








(** A cache file that is no archive, and one that was cut short. *)
Definition world_with_cache (contents : fdata) : world :=
  Sample.world_of
    (<[Sample.cache_file := File contents]>
       (<["/work/node_modules/old.js" := File (Bytes "old")]>
          (<["/work/node_modules" := Dir]>
             (<["/work/package.json" := File (Bytes "{}")]>
                (<["/work" := Dir]> (<["/" := Dir]> ∅)))))).


Definition cut_short : world := world_with_cache (Bytes (gzip_magic +:+ "...")).

End Scenario.



(** * Facts about paths *)
Module PathFacts.
Import Path.

Lemma sapp_cons c s t : String c s +:+ t = String c (s +:+ t).
Proof. reflexivity. Qed.

Lemma sapp_nil_r s : s +:+ "" = s.
Proof. induction s as [|c s IH]; [done|]. by rewrite sapp_cons, IH. Qed.

Lemma sapp_assoc a b c : (a +:+ b) +:+ c = a +:+ b +:+ c.
Proof. induction a as [|x a IH]; [done|]. by rewrite !sapp_cons, IH. Qed.

Lemma slength_app a b :
  String.length (a +:+ b) = (String.length a + String.length b)%nat.
Proof. induction a as [|x a IH]; [done|]. rewrite sapp_cons. cbn. by rewrite IH. Qed.

Lemma split_nonempty s : split s ≠ [].
Proof.
  destruct s as [|c r]; [done|]. cbn.
  destruct (Ascii.eqb c sep); [done|]. by destruct (split r).
Qed.

Lemma split_app a b : split (a +:+ "/" +:+ b) = split a ++ split b.
Proof.
  induction a as [|c a IH]; [done|].
  rewrite sapp_cons. cbn [split]. rewrite IH.
  destruct (Ascii.eqb c sep); [done|].
  pose proof (split_nonempty a). by destruct (split a).
Qed.

Lemma split_no_sep s : no_sep s = true → split s = [s].
Proof.
  induction s as [|c s IH]; [done|]. cbn.
  intros [Hc Hs]%andb_prop. destruct (Ascii.eqb c sep); [done|].
  by rewrite (IH Hs).
Qed.

Lemma split_segments s : Forall (λ seg, no_sep seg = true) (split s).
Proof.
  induction s as [|c s IH]; [by repeat constructor|]. cbn.
  destruct (Ascii.eqb c sep) eqn:Hc; [by constructor|].
  pose proof (split_nonempty s). destruct (split s) as [|h t]; [done|].
  inversion IH; subst. constructor; [|done]. cbn. by rewrite Hc.
Qed.

Lemma join_cons a b rest : join (a :: b :: rest) = a +:+ "/" +:+ join (b :: rest).
Proof. done. Qed.

Lemma join_split s : join (split s) = s.
Proof.
  induction s as [|c s IH]; [done|]. cbn [split].
  pose proof (split_nonempty s).
  destruct (Ascii.eqb_spec c sep) as [->|Hc].
  - destruct (split s) as [|h t]; [done|]. rewrite join_cons, IH. done.
  - destruct (split s) as [|h [|h' t]]; [done| |].
    + cbn in *. by rewrite IH.
    + rewrite join_cons in *. rewrite sapp_cons. by rewrite IH.
Qed.

Lemma join_snoc l x : l ≠ [] → join (l ++ [x]) = join l +:+ "/" +:+ x.
Proof.
  induction l as [|a [|b l] IH]; [done|done|]. intros _.
  change ((a :: b :: l) ++ [x]) with (a :: b :: (l ++ [x])).
  rewrite !join_cons. change (b :: l ++ [x]) with ((b :: l) ++ [x]).
  rewrite IH by done. by rewrite !sapp_assoc.
Qed.

Lemma plain_no_sep s : plain s = true → no_sep s = true.
Proof. unfold plain. by intros [_ ?]%andb_prop. Qed.

Lemma norm_step_plain st s : plain s = true → norm_step st s = st ++ [s].
Proof.
  unfold plain, norm_step.
  intros [[[H1 H2]%andb_prop H3]%andb_prop _]%andb_prop.
  apply negb_true_iff in H1, H2, H3. by rewrite H1, H2, H3.
Qed.

Lemma norm_step_keeps st s :
  no_sep s = true → Forall (λ x, plain x = true) st →
  Forall (λ x, plain x = true) (norm_step st s).
Proof.
  intros Hs Hst. unfold norm_step.
  destruct (String.eqb s "") eqn:H1; [done|].
  destruct (String.eqb s ".") eqn:H2; [done|].
  destruct (String.eqb s "..") eqn:H3.
  - clear -Hst. induction Hst as [|x [|y l] Hx Hl IH]; cbn; try done.
    constructor; [done|]. apply IH.
  - apply Forall_app. split; [done|]. constructor; [|done].
    unfold plain. by rewrite H1, H2, H3, Hs.
Qed.

Lemma fold_norm_keeps l st :
  Forall (λ x, no_sep x = true) l → Forall (λ x, plain x = true) st →
  Forall (λ x, plain x = true) (fold_left norm_step l st).
Proof.
  intros Hl. revert st. induction Hl as [|s l Hs Hl IH]; intros st Hst; [done|].
  cbn. apply IH. by apply norm_step_keeps.
Qed.

Lemma fold_norm_plain l st :
  Forall (λ x, plain x = true) l → fold_left norm_step l st = st ++ l.
Proof.
  intros Hl. revert st. induction Hl as [|s l Hs Hl IH]; intros st.
  - by rewrite List.app_nil_r.
  - cbn. rewrite norm_step_plain by done. rewrite IH. by rewrite <- List.app_assoc.
Qed.

Lemma normalize_plain s : Forall (λ x, plain x = true) (normalize (split s)).
Proof. apply fold_norm_keeps; [apply split_segments|done]. Qed.
Lemma resolve_loop_head cwd rargs acc :
  resolve_loop cwd rargs acc = resolve_head cwd rargs +:+ "/" +:+ acc.
Proof.
  revert acc. induction rargs as [|p rest IH]; intros acc; [done|]. cbn.
  destruct (String.eqb p ""); [apply IH|].
  destruct (isAbsolute p); [done|].
  rewrite IH. by rewrite !sapp_assoc.
Qed.

Lemma normalize_app l1 l2 :
  normalize (l1 ++ l2) = fold_left norm_step l2 (normalize l1).
Proof. unfold normalize. apply fold_left_app. Qed.

Lemma resolve_eq cwd args : resolve cwd args = "/" +:+ join (resolve_segs cwd args).
Proof.
  unfold resolve, resolve_segs. rewrite resolve_loop_head, split_app.
  by rewrite normalize_app.
Qed.

Lemma resolve_segs_plain cwd args :
  Forall (λ x, plain x = true) (resolve_segs cwd args).
Proof. apply normalize_plain. Qed.

Lemma split_join st :
  st ≠ [] → Forall (λ x, plain x = true) st → split (join st) = st.
Proof.
  induction st as [|a [|b st] IH]; [done| |]; intros _ Hst.
  - inversion Hst; subst. cbn. by apply split_no_sep, plain_no_sep.
  - inversion Hst; subst. rewrite join_cons, split_app, IH by done.
    by rewrite split_no_sep by by apply plain_no_sep.
Qed.

(** Normalising an absolute normal path gives its segments back, and
    goes on from there. *)
Lemma normalize_rooted st rest :
  Forall (λ x, plain x = true) st →
  normalize (split ("/" +:+ join st) ++ rest) = fold_left norm_step rest st.
Proof.
  intros Hst. rewrite normalize_app. f_equal.
  destruct st as [|a st]; [done|].
  change ("/" +:+ join (a :: st)) with (String sep (join (a :: st))).
  cbn [split]. rewrite Ascii.eqb_refl, split_join by done.
  change (normalize ("" :: a :: st)) with (fold_left norm_step (a :: st) []).
  by rewrite fold_norm_plain.
Qed.

Lemma rooted_absolute st : isAbsolute ("/" +:+ join st) = true.
Proof. done. Qed.

Lemma rooted_not_empty st : String.eqb ("/" +:+ join st) "" = false.
Proof. done. Qed.

(** Resolving a resolved path changes nothing. *)
Lemma resolve_idem cwd cwd' args :
  resolve cwd' [resolve cwd args] = resolve cwd args.
Proof.
  rewrite (resolve_eq cwd args), (resolve_eq cwd'). f_equal. f_equal.
  unfold resolve_segs at 1. cbn [rev List.app resolve_head].
  rewrite rooted_not_empty, rooted_absolute.
  rewrite <- (List.app_nil_r (split _)).
  by rewrite normalize_rooted by apply resolve_segs_plain.
Qed.

(** Resolving against a resolved directory is resolving the longer
    argument list. *)
Lemma resolve_nested cwd args d :
  resolve cwd [resolve cwd args; d] = resolve cwd (args ++ [d]).
Proof.
  rewrite (resolve_eq cwd (args ++ [d])), (resolve_eq cwd [_; d]). f_equal. f_equal.
  unfold resolve_segs. rewrite rev_app_distr. cbn [rev List.app resolve_head].
  destruct (String.eqb d "") eqn:Hd.
  - rewrite resolve_eq, rooted_not_empty, rooted_absolute.
    rewrite <- (List.app_nil_r (split _)).
    by rewrite normalize_rooted by apply resolve_segs_plain.
  - destruct (isAbsolute d); [done|].
    rewrite resolve_eq, rooted_not_empty, rooted_absolute.
    rewrite !split_app, normalize_rooted by apply resolve_segs_plain.
    by rewrite normalize_app.
Qed.

Lemma no_sep_app a b : no_sep (a +:+ b) = no_sep a && no_sep b.
Proof.
  induction a as [|c a IH]; [done|]. rewrite sapp_cons. cbn.
  by rewrite IH, andb_assoc.
Qed.

Lemma plain_long s :
  no_sep s = true → (3 ≤ String.length s)%nat → plain s = true.
Proof.
  intros Hs Hlen. unfold plain. rewrite Hs.
  assert (String.eqb s "" = false) as ->
    by (apply String.eqb_neq; intros ->; cbn in Hlen; lia).
  assert (String.eqb s "." = false) as ->
    by (apply String.eqb_neq; intros ->; cbn in Hlen; lia).
  assert (String.eqb s ".." = false) as ->
    by (apply String.eqb_neq; intros ->; cbn in Hlen; lia).
  done.
Qed.

Lemma plain_archive_name hash :
  no_sep hash = true → plain (hash +:+ ".tar.gz") = true.
Proof.
  intros Hh. apply plain_long.
  - by rewrite no_sep_app, Hh.
  - rewrite slength_app. cbn. lia.
Qed.

Lemma plain_relative s :
  plain s = true → String.eqb s "" = false ∧ isAbsolute s = false.
Proof.
  unfold plain. intros [[[H1 _]%andb_prop _]%andb_prop H4]%andb_prop.
  apply negb_true_iff in H1. split; [done|].
  destruct s as [|c s]; [done|]. cbn in *.
  apply andb_prop in H4 as [H4 _]. by apply negb_true_iff in H4.
Qed.

Lemma forallb_Forall {A} (f : A → bool) l :
  forallb f l = true → Forall (λ x, f x = true) l.
Proof.
  induction l as [|x l IH]; cbn; [done|].
  intros [? ?]%andb_prop. constructor; auto.
Qed.

(** The layout of a resolved path when nothing needs normalising. *)
Lemma resolve_layout cwd dir a b c :
  normal dir = true → plain a = true → plain b = true → plain c = true →
  resolve cwd [dir; a; b; c] = dir +:+ "/" +:+ a +:+ "/" +:+ b +:+ "/" +:+ c.
Proof.
  intros Hdir Ha Hb Hc.
  destruct dir as [|x r]; [done|]. cbn in Hdir.
  apply andb_prop in Hdir as [Hx Hr]. apply Ascii.eqb_eq in Hx as ->.
  apply forallb_Forall in Hr.
  destruct (plain_relative _ Ha) as [Ha1 Ha2].
  destruct (plain_relative _ Hb) as [Hb1 Hb2].
  destruct (plain_relative _ Hc) as [Hc1 Hc2].
  rewrite resolve_eq. unfold resolve_segs. cbn [rev List.app resolve_head].
  rewrite Ha1, Ha2, Hb1, Hb2, Hc1, Hc2.
  change (String.eqb (String sep r) "") with false.
  change (isAbsolute (String sep r)) with true. cbn match.
  rewrite !split_app. cbn [split]. rewrite Ascii.eqb_refl.
  rewrite (split_no_sep a), (split_no_sep b), (split_no_sep c)
    by by apply plain_no_sep.
  rewrite <- !List.app_assoc.
  change (normalize (("" :: split r) ++ [a] ++ [b] ++ [c]))
    with (fold_left norm_step (split r ++ [a; b; c]) []).
  rewrite fold_norm_plain.
  2:{ apply Forall_app. split; [done|]. by repeat constructor. }
  cbn [List.app].
  pose proof (split_nonempty r) as Hne.
  change [a; b; c] with ([a] ++ [b] ++ [c]).
  rewrite !List.app_assoc.
  rewrite !join_snoc; try by destruct (split r).
  rewrite join_split. by rewrite !sapp_cons, !sapp_assoc.
Qed.


(** The last segment of a path takes the suffix. *)
Lemma split_tilde s :
  ∃ init l, split s = init ++ [l] ∧ split (s +:+ "~") = init ++ [l +:+ "~"].
Proof.
  induction s as [|c r (init & l & Hr & Hr')].
  - by exists [], "".
  - rewrite sapp_cons. cbn [split]. rewrite Hr, Hr'.
    destruct (Ascii.eqb c sep).
    + by exists ("" :: init), l.
    + destruct init as [|h t].
      * by exists [], (String c l).
      * by exists (String c h :: t), l.
Qed.

Lemma plain_tilde l : no_sep l = true → plain (l +:+ "~") = true.
Proof.
  intros Hl. destruct l as [|a [|b r]].
  - done.
  - unfold plain. cbn in Hl. rewrite andb_true_r in Hl.
    change (String a "" +:+ "~") with (String a "~"). cbn [no_sep]. rewrite Hl.
    assert (String.eqb (String a "~") "" = false) as -> by done.
    assert (String.eqb (String a "~") "." = false) as ->
      by (apply String.eqb_neq; intros H; inversion H).
    assert (String.eqb (String a "~") ".." = false) as ->
      by (apply String.eqb_neq; intros H; inversion H).
    done.
  - apply plain_long.
    + by rewrite no_sep_app, Hl.
    + rewrite slength_app. cbn. lia.
Qed.

Lemma join_snoc_length st x :
  String.length (join (st ++ [x]))
  = (String.length (join st) + String.length x
     + match st with [] => 0 | _ => 1 end)%nat.
Proof.
  destruct st as [|a st]; [done|].
  rewrite join_snoc by done. rewrite !slength_app. cbn. lia.
Qed.

Lemma join_removelast_length st :
  (String.length (join (removelast st)) ≤ String.length (join st))%nat.
Proof.
  destruct (decide (st = [])) as [->|Hne]; [done|].
  destruct (exists_last Hne) as (init & x & ->).
  rewrite removelast_last, join_snoc_length. lia.
Qed.

Lemma tilde_longer st l :
  no_sep l = true →
  (String.length (join (norm_step st l))
   < String.length (join (norm_step st (l +:+ "~"))))%nat.
Proof.
  intros Hl. rewrite (norm_step_plain st (l +:+ "~")) by by apply plain_tilde.
  rewrite join_snoc_length, slength_app. cbn [String.length].
  unfold norm_step.
  destruct (String.eqb l ""); [lia|].
  destruct (String.eqb l "."); [lia|].
  destruct (String.eqb l "..").
  - pose proof (join_removelast_length st). lia.
  - rewrite join_snoc_length. lia.
Qed.

(** The temporary path of the writer never resolves to the final one. *)
Lemma resolve_tilde_ne cwd p : resolve cwd [p +:+ "~"] ≠ resolve cwd [p].
Proof.
  intros Heq. apply (f_equal String.length) in Heq.
  rewrite !resolve_eq, !slength_app in Heq. unfold resolve_segs in Heq.
  cbn [rev List.app resolve_head] in Heq.
  assert (∃ h, (if String.eqb (p +:+ "~") "" then cwd
                else if isAbsolute (p +:+ "~") then p +:+ "~"
                     else cwd +:+ "/" +:+ p +:+ "~") = h +:+ "~"
               ∧ (if String.eqb p "" then cwd
                  else if isAbsolute p then p else cwd +:+ "/" +:+ p) = h
               ∨ p = "") as [h [[H1 H2]| ->]].
  { destruct p as [|c r]; [exists ""; by right|].
    rewrite sapp_cons. cbn [String.eqb isAbsolute].
    destruct (Ascii.eqb c sep); eexists; left; (split; [|reflexivity]).
    - by rewrite sapp_cons.
    - by rewrite <- sapp_cons, !sapp_assoc. }
  - rewrite H1, H2 in Heq.
    destruct (split_tilde h) as (init & l & Hs & Hs'). rewrite Hs, Hs' in Heq.
    rewrite !normalize_app in Heq. cbn [fold_left] in Heq.
    pose proof (split_segments h) as Hseg. rewrite Hs in Hseg.
    apply Forall_app in Hseg as [_ Hl]. apply Forall_inv in Hl.
    pose proof (tilde_longer (normalize init) l Hl). lia.
  - change ("" +:+ "~") with "~" in Heq.
    change (String.eqb "~" "") with false in Heq.
    change (isAbsolute "~") with false in Heq.
    change (String.eqb "" "") with true in Heq. cbv iota in Heq.
    rewrite split_app, normalize_app in Heq.
    change (split "~") with ["~"] in Heq. cbn [fold_left] in Heq.
    rewrite (norm_step_plain _ "~") in Heq by done.
    rewrite join_snoc_length in Heq. cbn [String.length] in Heq. lia.
Qed.


(** With an absolute argument the working directory plays no part. *)
Lemma resolve_head_absolute cwd cwd' rargs :
  existsb isAbsolute rargs = true → resolve_head cwd rargs = resolve_head cwd' rargs.
Proof.
  induction rargs as [|p rest IH]; [done|]. cbn.
  destruct (String.eqb_spec p "") as [->|Hp]; [apply IH|].
  destruct (isAbsolute p); [done|]. cbn. intros H. by rewrite IH.
Qed.

Lemma resolve_absolute cwd cwd' args :
  existsb isAbsolute args = true → resolve cwd args = resolve cwd' args.
Proof.
  intros H. rewrite !resolve_eq. unfold resolve_segs.
  rewrite (resolve_head_absolute cwd cwd'); [done|].
  apply existsb_exists in H as (x & Hx & Hab).
  apply existsb_exists. exists x. split; [|done]. by apply in_rev in Hx.
Qed.

Example resolve_scenario :
  resolve "/work" ["/home/u/.package_cache"; "npm"; "10.0.0"]
  = "/home/u/.package_cache/npm/10.0.0".
Proof. reflexivity. Qed.

Example resolve_relative :
  resolve "/work" ["cache/"; "../npm"; "."; "x.tar.gz"] = "/work/npm/x.tar.gz".
Proof. reflexivity. Qed.

Example resolve_above_root : resolve "/work" ["/a"; ".."; ".."] = "/".
Proof. reflexivity. Qed.

Example resolve_restarts : resolve "/work" ["/cache"; "/opt/npm"; "1.0"] = "/opt/npm/1.0".
Proof. reflexivity. Qed.

Example trim_install_command : trim ("npm install" +:+ " " +:+ "") = "npm install".
Proof. reflexivity. Qed.

End PathFacts.

(** * The Cache Key Resolver *)

(** C1. The resolved cache path is a function of the cache directory,
    the manager name, its reported version and the hash of its config
    file: two configs that agree on the four resolve to the same path,
    which is the four components joined by [path.resolve]; when the
    cache directory is an absolute normal path and the components are
    plain segments this is literally
    cacheDirectory/cliName/cliVersion/hash.tar.gz; and when the cache
    directory is absolute the working directory of the process plays
    no part. *)
Theorem cache_path_deterministic (E : env) (c1 c2 : config) :
  cliName c1 = cliName c2 →
  getCliVersion c1 tt = getCliVersion c2 tt →
  cacheDirectory c1 = cacheDirectory c2 →
  getFileHash c1 (configPath c1) = getFileHash c2 (configPath c2) →
  cachePathOf E c1 = cachePathOf E c2
  ∧ cachePathOf E c1
    = Path.resolve (cwd E)
        [cacheDirectory c1; cliName c1; getCliVersion c1 tt;
         getFileHash c1 (configPath c1) +:+ ".tar.gz"]
  ∧ (Path.normal (cacheDirectory c1) = true →
     Path.plain (cliName c1) = true →
     Path.plain (getCliVersion c1 tt) = true →
     Path.no_sep (getFileHash c1 (configPath c1)) = true →
     cachePathOf E c1
     = cacheDirectory c1 +:+ "/" +:+ cliName c1 +:+ "/" +:+ getCliVersion c1 tt
       +:+ "/" +:+ getFileHash c1 (configPath c1) +:+ ".tar.gz")
  ∧ (Path.isAbsolute (cacheDirectory c1) = true →
     ∀ E', cachePathOf E' c2 = cachePathOf E c1).
Proof.
  intros Hcli Hver Hdir Hhash.
  assert (∀ c, cachePathOf E c
               = Path.resolve (cwd E)
                   [cacheDirectory c; cliName c; getCliVersion c tt;
                    getFileHash c (configPath c) +:+ ".tar.gz"]) as Hshape.
  { intros c. unfold cachePathOf, cacheDirectoryOf.
    by rewrite PathFacts.resolve_nested. }
  assert (∀ E' c, cachePathOf E' c
               = Path.resolve (cwd E')
                   [cacheDirectory c; cliName c; getCliVersion c tt;
                    getFileHash c (configPath c) +:+ ".tar.gz"]) as Hshape'.
  { intros E' c. unfold cachePathOf, cacheDirectoryOf.
    by rewrite PathFacts.resolve_nested. }
  split; [|split; [|split]].
  - rewrite !Hshape. by rewrite Hcli, Hver, Hdir, Hhash.
  - apply Hshape.
  - intros Hd Hc Hv Hh. rewrite Hshape.
    apply PathFacts.resolve_layout; try done.
    by apply PathFacts.plain_archive_name.
  - intros Habs E'. rewrite Hshape, Hshape', <- Hcli, <- Hver, <- Hdir, <- Hhash.
    apply PathFacts.resolve_absolute. cbn. by rewrite Habs.
Qed.

Lemma cache_path_deterministic_witness :
  cachePathOf Sample.machine Sample.npm = cachePathOf Sample.machine Sample.npm_refresh
  ∧ cachePathOf Sample.machine Sample.npm = Sample.cache_file.
Proof.
  destruct (cache_path_deterministic Sample.machine Sample.npm Sample.npm_refresh
              eq_refl eq_refl eq_refl eq_refl) as (Hsame & _ & Hlayout & _).
  split; [exact Hsame|].
  exact (Hlayout eq_refl eq_refl eq_refl eq_refl).
Defined.

(** * Shapes of worlds *)

Lemma logged_logged w l1 l2 : logged (logged w l1) l2 = logged w (l1 ++ l2).
Proof. unfold logged. cbn. by rewrite <- List.app_assoc. Qed.

Lemma emit_log e w : emit e w = Done tt (logged w [e]).
Proof. done. Qed.

(** Traces grow at the right end; this brings them to the shape
    [old ++ [e1; ...; en]]. *)
Ltac flatten := rewrite <- ?List.app_assoc; cbn [List.app].


(** * Runs and their events *)
Section Runs.
Variable E : env.
Variable P : event -> bool.

Lemma extends_refl w : extends P w w.
Proof. exists []. by rewrite List.app_nil_r. Qed.

Lemma extends_trans w1 w2 w3 : extends P w1 w2 → extends P w2 w3 → extends P w1 w3.
Proof.
  intros (l1 & H1 & F1) (l2 & H2 & F2). exists (l1 ++ l2). split.
  - by rewrite H2, H1, List.app_assoc.
  - by rewrite forallb_app, F1, F2.
Qed.

Lemma extends_emit e w : P e = true → extends P w (logged w [e]).
Proof. intros He. exists [e]. cbn. by rewrite He. Qed.

Lemma extends_same w w' : trace w' = trace w → extends P w w'.
Proof. intros H. exists []. by rewrite H, List.app_nil_r. Qed.

Lemma extends_weaken (Q : event → bool) w w' :
  (∀ e, P e = true → Q e = true) → extends P w w' → extends Q w w'.
Proof.
  intros HPQ (l & Hl & HF). exists l. split; [done|].
  apply forallb_forall. intros e He.
  apply HPQ. by apply (proj1 (forallb_forall P l) HF).
Qed.


Lemma reaches_step (f : Callback → M unit) (w w1 : world) (g : Callback → M unit) :
  (∀ cb, f cb w = g cb w1) → extends P w w1 → reaches P g w1 → reaches P f w.
Proof.
  intros Hf Hext [(args & w' & Hg & H')|(e & w' & Hg & H')]; [left|right].
  - exists args, w'. split; [intros cb; by rewrite Hf|]. by eapply extends_trans.
  - exists e, w'. split; [intros cb; by rewrite Hf|]. by eapply extends_trans.
Qed.

Lemma reaches_call args w : reaches P (λ cb, cb args) w.
Proof. left. exists args, w. split; [done|apply extends_refl]. Qed.

Lemma reaches_throw e w : reaches P (λ _, throw e) w.
Proof. right. exists e, w. split; [done|apply extends_refl]. Qed.

(** A task followed by what is done with its outcome. *)
Lemma reaches_then (task : Callback → M unit) (next : list value → Callback → M unit) w :
  reaches P task w →
  (∀ args w', reaches P (next args) w') →
  reaches P (λ cb, task (λ args, next args cb)) w.
Proof.
  intros [(args & w' & Ht & H')|(e & w' & Ht & H')] Hnext.
  - eapply (reaches_step _ w w' (next args)); [|done|apply Hnext].
    intros cb. apply Ht.
  - right. exists e, w'. split; [|done]. intros cb. apply Ht.
Qed.

Lemma reaches_series tasks :
  (∀ task, In task tasks → ∀ w, reaches P task w) →
  ∀ w, reaches P (series tasks) w.
Proof.
  induction tasks as [|task rest IH]; intros Htasks w.
  - apply reaches_call.
  - cbn [series].
    apply (reaches_then task
             (λ args cb, if truthy (arg0 args) then cb [arg0 args] else series rest cb)).
    + apply Htasks. by left.
    + intros args w'. destruct (truthy (arg0 args)).
      * apply reaches_call.
      * apply IH. intros t Ht. apply Htasks. by right.
Qed.

(** The asynchronous library calls reach their callback. *)
Ltac reach_by_run HP :=
  left; eexists _, _;
  split; [intros cb; cbv [flock rename compress decompress bind emit get_fs set_fs set_lock];
          cbn; repeat (match goal with H : _ = _ |- _ => rewrite H end); cbn; reflexivity
         |eexists [_]; split; [reflexivity|cbn; by rewrite HP]].

Lemma reaches_flock fd op w : P (Flock fd op) = true → reaches P (flock E fd op) w.
Proof.
  intros HP. destruct (flock_error E fd op) as [msg|] eqn:He; reach_by_run HP.
Qed.

Lemma reaches_rename src dst w :
  P (Rename (abs E src) (abs E dst)) = true → reaches P (rename E src dst) w.
Proof.
  intros HP.
  destruct (fs w !! abs E src) as [n|] eqn:Hs;
    [destruct (rename_error E (abs E src) (abs E dst)) eqn:He|]; reach_by_run HP.
Qed.

Lemma reaches_compress src dst w :
  P (Compress (abs E src) (abs E dst)) = true → reaches P (compress E src dst) w.
Proof.
  intros HP.
  destruct (compress_error E (abs E src) (abs E dst)) as [[msg partial]|] eqn:He;
    reach_by_run HP.
Qed.

Lemma reaches_decompress src dest w :
  P (Decompress (abs E src) (abs E dest)) = true → reaches P (decompress E src dest) w.
Proof.
  intros HP.
  destruct (fs w !! abs E src) as [[|contents]|] eqn:Hs;
    [destruct (decompress_error E (abs E src)) as [[msg written]|] eqn:He
    |destruct (cut_short contents) eqn:Hcut;
     [|destruct (decompress_error E (abs E src)) as [[msg written]|] eqn:He]|];
    try reach_by_run HP.
  right. eexists _, _.
  split; [intros cb; cbv [decompress bind emit get_fs set_fs throw]; cbn;
          rewrite Hs, Hcut; reflexivity|].
  eexists [_]. split; [reflexivity|]. cbn. by rewrite HP.
Qed.

Lemma reaches_bind {A} (m : M A) (k : A → Callback → M unit) w :
  runs P m w →
  (∀ a w', reaches P (k a) w') →
  reaches P (λ cb, bind m (λ a, k a cb)) w.
Proof.
  intros [(a & w' & Hm & H')|(e & w' & Hm & H')] Hk.
  - eapply (reaches_step _ w w' (k a)); [|done|apply Hk].
    intros cb. unfold bind. by rewrite Hm.
  - right. exists e, w'. split; [|done]. intros cb. unfold bind. by rewrite Hm.
Qed.

Lemma runs_ret {A} (a : A) w : runs P (ret a) w.
Proof. left. exists a, w. split; [done|apply extends_refl]. Qed.

Lemma runs_bind {A B} (m : M A) (k : A → M B) w :
  runs P m w → (∀ a w', runs P (k a) w') → runs P (bind m k) w.
Proof.
  intros [(a & w' & Hm & H')|(e & w' & Hm & H')] Hk.
  - destruct (Hk a w') as [(b & w'' & Hb & H'')|(e & w'' & Hb & H'')]; [left|right];
      eexists _, w''; (split; [unfold bind; by rewrite Hm|by eapply extends_trans]).
  - right. exists e, w'. split; [unfold bind; by rewrite Hm|done].
Qed.

Lemma runs_emit e w : P e = true → runs P (emit e) w.
Proof. intros HP. left. eexists _, _. split; [done|]. by apply extends_emit. Qed.

Lemma runs_throw {A} e w : runs P (@throw A e) w.
Proof. right. exists e, w. split; [done|apply extends_refl]. Qed.

Lemma runs_get_fs w : runs P get_fs w.
Proof. left. eexists _, _. split; [done|apply extends_refl]. Qed.

Lemma runs_set_fs m w : runs P (set_fs m) w.
Proof. left. eexists _, _. split; [done|]. by apply extends_same. Qed.

Lemma runs_set_lock fd op w : runs P (set_lock fd op) w.
Proof. left. eexists _, _. split; [done|]. by apply extends_same. Qed.

Lemma runs_existsSync p w : runs P (existsSync E p) w.
Proof. left. eexists _, _. split; [done|apply extends_refl]. Qed.

Lemma runs_removeSync p w : P (Remove (abs E p)) = true → runs P (removeSync E p) w.
Proof.
  intros HP. unfold removeSync.
  apply runs_bind; [by apply runs_emit|]. intros _ w1.
  apply runs_bind; [apply runs_get_fs|]. intros m w2. apply runs_set_fs.
Qed.

Lemma runs_ensureFileSync p w :
  P (EnsureFile (abs E p)) = true → runs P (ensureFileSync E p) w.
Proof.
  intros HP. unfold ensureFileSync.
  apply runs_bind; [by apply runs_emit|]. intros _ w1.
  apply runs_bind; [apply runs_get_fs|]. intros m w2.
  destruct (m !! abs E p); [apply runs_ret|].
  destruct (existsb _ _); [apply runs_throw|apply runs_set_fs].
Qed.

Lemma runs_openSync p flag w :
  (∀ fd, P (Open (abs E p) flag fd) = true) → runs P (openSync E p flag) w.
Proof.
  intros HP. unfold openSync.
  apply runs_bind; [apply runs_get_fs|]. intros m w1.
  apply runs_bind.
  - destruct flag, (m !! abs E p) as [[|d]|];
      first [apply runs_ret|apply runs_throw|apply runs_set_fs].
  - intros _ w2. left. eexists _, _. split; [done|].
    eexists [_]. split; [done|]. cbn. by rewrite HP.
Qed.

Lemma runs_flockSync fd op w : P (Flock fd op) = true → runs P (flockSync E fd op) w.
Proof.
  intros HP. unfold flockSync.
  apply runs_bind; [by apply runs_emit|]. intros _ w1.
  destruct (flock_error E fd op); [apply runs_throw|apply runs_set_lock].
Qed.

Lemma runs_shell_exec command w : P (Exec command) = true → runs P (shell_exec E command) w.
Proof.
  intros HP. unfold shell_exec.
  apply runs_bind; [by apply runs_emit|]. intros _ w1.
  apply runs_bind; [apply runs_get_fs|]. intros m w2.
  destruct (exec E command m) as [code m'].
  apply runs_bind; [apply runs_set_fs|]. intros _ w3. apply runs_ret.
Qed.


End Runs.

(** * The writer and the reader reach their callback *)

Lemma reaches_weaken (P Q : event → bool) f w :
  (∀ e, P e = true → Q e = true) → reaches P f w → reaches Q f w.
Proof.
  intros HPQ.
  assert (∀ w1 w2, extends P w1 w2 → extends Q w1 w2) as Hext.
  { intros w1 w2 (l & Hl & HF). exists l. split; [done|].
    apply forallb_forall. intros e He.
    apply HPQ. by apply (proj1 (forallb_forall P l) HF). }
  intros [(args & w' & Hf & H')|(e & w' & Hf & H')]; [left|right]; eauto 6.
Qed.

(** Peels the next monadic step off a function in callback style. *)
Tactic Notation "reach_bind" "as" ident(x) :=
  lazymatch goal with
  | |- reaches ?P (λ cb, bind ?m (@?k cb)) ?w =>
      apply (reaches_bind P m (λ a cb, k cb a)); [|intros x ?; cbn beta]
  end.
Tactic Notation "reach_bind" := (let x := fresh "x" in reach_bind as x).

Section Reach.
Variable E : env.
Variable self : config.

Lemma archive_reaches cacheDirectory' cachePath w :
  reaches writer_event (archiveDependencies E self cacheDirectory' cachePath) w.
Proof.
  unfold archiveDependencies, cacheLogInfo, cacheLogError, logInfo, logError. cbv zeta.
  reach_bind; [by apply runs_emit|].
  reach_bind as present; [apply runs_existsSync|].
  destruct present; cbn [negb].
  2:{ reach_bind; [by apply runs_emit|]. apply reaches_call. }
  reach_bind; [by apply runs_ensureFileSync|].
  reach_bind as fd; [by apply runs_openSync|].
  reach_bind; [by apply runs_flockSync|].
  reach_bind as cached; [apply runs_existsSync|].
  destruct cached.
  { reach_bind; [by apply runs_emit|]. apply reaches_call. }
  apply reaches_series. intros task [<-|[<-|[<-|[]]]] w0.
  - apply (reaches_then writer_event
             (compress E (getAbsolutePath E (installDirectory self)) (cachePath +:+ "~"))
             (λ args cb,
                if truthy (arg0 args)
                then bind (emit (LogError _)) (λ _, cb [VStr _])
                else bind (emit (LogInfo _)) (λ _, cb [VNull]))).
    + by apply reaches_compress.
    + intros args w1. destruct (truthy (arg0 args));
        (reach_bind; [by apply runs_emit|apply reaches_call]).
  - by apply reaches_rename.
  - by apply reaches_flock.
Qed.

Lemma extract_reaches cachePath w :
  reaches reader_event (extractDependencies E self cachePath) w.
Proof.
  unfold extractDependencies, cacheLogInfo, cacheLogError, logInfo, logError. cbv zeta.
  reach_bind; [by apply runs_emit|].
  reach_bind; [by apply runs_removeSync|].
  reach_bind; [by apply runs_emit|].
  reach_bind; [by apply runs_emit|].
  reach_bind as fd; [by apply runs_openSync|].
  apply (reaches_then reader_event
           (series [flock E fd LockSh; decompress E cachePath (cwd E); flock E fd LockUn])
           (λ args cb,
              bind (if truthy (arg0 args) then emit (LogError _) else emit (LogInfo _))
                   (λ _, cb [arg0 args]))).
  - apply reaches_series. intros task [<-|[<-|[<-|[]]]] w0.
    + by apply reaches_flock.
    + by apply reaches_decompress.
    + by apply reaches_flock.
  - intros args w1. reach_bind; [|apply reaches_call].
    destruct (truthy (arg0 args)); by apply runs_emit.
Qed.

End Reach.

(** * The Cache Orchestrator *)

(** C8. When the config file is missing the load operation calls back
    with [null] having touched nothing but the log; when the file is
    there and the command-line tool is not on the system it calls back
    with an error, again with the file system, the descriptors and the
    locks as they were: no clearing, no install, no cache file. *)
Theorem load_without_config_or_tool (E : env) (self : config) (callback : value) (w : world) :
  (exists_at E w (configPath self) = false →
   loadDependencies E self callback w
   = invoke callback [VNull]
       (logged w [LogInfo ("[" +:+ cliName self +:+ "] " +:+ "Dependency config file "
                           +:+ configPath self +:+ " does not exist. Skipping install")]))
  ∧ (exists_at E w (configPath self) = true →
     which E (cliName self) = false →
     loadDependencies E self callback w
     = invoke callback [VStr ("Command line tool " +:+ cliName self +:+ " not installed")]
         (logged w [LogInfo ("[" +:+ cliName self +:+ "] " +:+ "config file exists");
                    LogError ("[" +:+ cliName self +:+ "] " +:+ "Command line tool "
                              +:+ cliName self +:+ " not installed")])
     ∧ truthy (VStr ("Command line tool " +:+ cliName self +:+ " not installed")) = true).
Proof.
  split.
  - intros Hc. unfold loadDependencies, bind, existsSync. fold (exists_at E w (configPath self)).
    rewrite Hc. cbn. by flatten.
  - intros Hc Hw. unfold loadDependencies, bind, existsSync. fold (exists_at E w (configPath self)).
    rewrite Hc. cbn. unfold which_sync, ret. rewrite Hw. cbn. split; [by flatten|done].
Qed.

(** C3. On a miss (no file at the resolved cache path, or
    [forceRefresh] on) the install command runs first, with nothing but
    log lines before it.  When it exits non-zero the operation calls
    back with the error and nothing of the archive writer has happened;
    when it exits zero the operation goes on as the archive writer,
    started after the install on the manager's install directory and
    the resolved cache path. *)
Theorem miss_installs_then_archives (E : env) (self : config) (callback : value) (w : world) :
  exists_at E w (configPath self) = true →
  which E (cliName self) = true →
  forceRefresh self = true ∨ exists_at E w (cachePathOf E self) = false →
  (install_code E self w ≠ 0 →
   loadDependencies E self callback w
   = invoke callback [VStr ("error running " +:+ installCommand self)]
       (logged (after_install E self w)
          [LogError ("[" +:+ cliName self +:+ "] " +:+ "error running "
                     +:+ installCommand self)])
   ∧ truthy (VStr ("error running " +:+ installCommand self)) = true
   ∧ extends not_archiving w (outcome_world (loadDependencies E self callback w)))
  ∧ (install_code E self w = 0 →
     loadDependencies E self callback w
     = archiveDependencies E self (cacheDirectoryOf E self) (cachePathOf E self)
         (λ args, invoke callback [if truthy (arg0 args) then arg0 args else VNull])
         (logged (after_install E self w)
            [LogInfo ("[" +:+ cliName self +:+ "] " +:+ "installed " +:+ cliName self
                      +:+ " dependencies, now archiving")])).
Proof.
  intros Hconfig Htool Hmiss.
  unfold exists_at in Hconfig. unfold install_code, after_install.
  destruct (exec E (trim (installCommand self +:+ " " +:+ installOptions self)) (fs w))
    as [code m] eqn:Hexec.
  cbn [fst snd].
  assert (bool_decide (is_Some (fs w !! abs E (cachePathOf E self)))
          && negb (forceRefresh self) = false) as Hhit.
  { destruct Hmiss as [->|Hc]; [by rewrite andb_false_r|].
    unfold exists_at in Hc. by rewrite Hc. }
  split.
  - intros Hcode. apply Z.eqb_neq in Hcode.
    match goal with |- ?l = ?r ∧ _ => assert (l = r) as Heq end.
    { unfold loadDependencies, bind, existsSync, which_sync, ret, cacheLogInfo, logInfo.
      rewrite Hconfig. cbn -[archiveDependencies trim]. rewrite Htool.
      cbn -[archiveDependencies trim].
      destruct (forceRefresh self); cbn -[archiveDependencies trim] in Hhit |- *;
        rewrite ?andb_true_r in Hhit; rewrite ?Hhit;
        unfold installDependencies, bind, shell_exec, cacheLogInfo, cacheLogError,
          logInfo, logError;
        cbn -[archiveDependencies trim]; rewrite Hexec;
        cbn -[archiveDependencies trim]; rewrite Hcode;
        cbn -[archiveDependencies trim]; unfold logged; by flatten. }
    split; [exact Heq|]. split.
    { unfold truthy. by destruct (installCommand self). }
    rewrite Heq. unfold invoke, bind. rewrite emit_log.
    assert (extends not_archiving w
              (logged (logged
                 (World m (open_files w) (next_fd w) (locks w)
                    (trace w ++
                     [LogInfo ("[" +:+ cliName self +:+ "] " +:+ "config file exists");
                      LogInfo ("[" +:+ cliName self +:+ "] " +:+ "cli exists");
                      LogInfo ("[" +:+ cliName self +:+ "] " +:+ "hash of "
                               +:+ configPath self +:+ ": "
                               +:+ getFileHash self (configPath self));
                      LogInfo ("[" +:+ cliName self +:+ "] " +:+ "running ["
                               +:+ trim (installCommand self +:+ " " +:+ installOptions self)
                               +:+ "]...");
                      Exec (trim (installCommand self +:+ " " +:+ installOptions self))])
                    (history w ++ [m]))
                 [LogError ("[" +:+ cliName self +:+ "] " +:+ "error running "
                            +:+ installCommand self)])
                 [Invoke callback [VStr ("error running " +:+ installCommand self)]]))
      as Hext.
    { eexists. split; [cbn; flatten; reflexivity|done]. }
    by destruct callback.
  - intros ->.
    unfold loadDependencies, bind, existsSync, which_sync, ret, cacheLogInfo, logInfo.
    rewrite Hconfig. cbn -[archiveDependencies trim]. rewrite Htool.
    cbn -[archiveDependencies trim].
    destruct (forceRefresh self); cbn -[archiveDependencies trim] in Hhit |- *;
      rewrite ?andb_true_r in Hhit; rewrite ?Hhit;
      unfold installDependencies, bind, shell_exec, cacheLogInfo, cacheLogError,
        logInfo, logError;
      cbn -[archiveDependencies trim]; rewrite Hexec;
      cbn -[archiveDependencies trim]; unfold logged;
      cbn -[archiveDependencies trim]; by flatten.
Qed.

(** * The task of the command line *)

Section Landing.
Variable E : env.
Variable self : config.
Variable P : event -> bool.

Lemma lands_bind {A} callback (m : M A) (k : A → M unit) w :
  runs P m w → (∀ a w', lands P callback (k a) w') → lands P callback (bind m k) w.
Proof.
  intros [(a & w' & Hm & H')|(e & w' & Hm & H')] Hk.
  - destruct (Hk a w') as [(args & w'' & Hb & H'')|(e & w'' & Hb & H'')]; [left|right];
      eexists _, w''; (split; [unfold bind; by rewrite Hm|by eapply extends_trans]).
  - right. exists e, w'. split; [unfold bind; by rewrite Hm|done].
Qed.

Lemma lands_invoke callback args w : lands P callback (invoke callback args) w.
Proof. left. exists args, w. split; [done|apply extends_refl]. Qed.

Lemma lands_reaches callback (f : Callback → M unit) (cb : Callback) w :
  reaches P f w → (∀ args w', lands P callback (cb args) w') → lands P callback (f cb) w.
Proof.
  intros [(args & w' & Hf & H')|(e & w' & Hf & H')] Hcb.
  - unfold lands. rewrite Hf. destruct (Hcb args w') as [(args' & w'' & Hb & H'')|(e & w'' & Hb & H'')];
      [left|right]; eexists _, w''; (split; [done|by eapply extends_trans]).
  - right. exists e, w'. by rewrite Hf.
Qed.


Hypothesis writer_P : ∀ e, writer_event e = true → P e = true.
Hypothesis reader_P : ∀ e, reader_event e = true → P e = true.
Hypothesis exec_P : ∀ e, is_exec e = true → P e = true.

(** Every way through [loadDependencies] ends in a call of its
    parameter, unless a library call throws first. *)
Lemma load_lands callback w : lands P callback (loadDependencies E self callback) w.
Proof.
  unfold loadDependencies, cacheLogInfo, cacheLogError, logInfo, logError. cbv zeta.
  apply lands_bind; [apply runs_existsSync|]. intros configExists w1.
  destruct configExists; cbn [negb].
  2:{ apply lands_bind; [apply runs_emit; by apply writer_P|]. intros _ w2.
      apply lands_invoke. }
  apply lands_bind; [apply runs_emit; by apply writer_P|]. intros _ w2.
  apply lands_bind; [apply runs_ret|]. intros found w3.
  destruct found; cbn [negb].
  2:{ apply lands_bind; [apply runs_emit; by apply writer_P|]. intros _ w4.
      apply lands_invoke. }
  apply lands_bind; [apply runs_emit; by apply writer_P|]. intros _ w4.
  apply lands_bind; [apply runs_emit; by apply writer_P|]. intros _ w5.
  apply lands_bind.
  { destruct (negb (forceRefresh self)); [apply runs_existsSync|apply runs_ret]. }
  intros hit w6. destruct hit.
  - apply lands_bind; [apply runs_emit; by apply writer_P|]. intros _ w7.
    apply lands_reaches.
    + eapply reaches_weaken; [apply reader_P|apply extract_reaches].
    + intros args w8. apply lands_invoke.
  - apply lands_bind.
    { unfold installDependencies, cacheLogInfo, cacheLogError, logInfo, logError. cbv zeta.
      apply runs_bind; [apply runs_emit; by apply writer_P|]. intros _ w7.
      apply runs_bind; [apply runs_shell_exec; by apply exec_P|]. intros code w8.
      destruct (negb (code =? 0));
        (apply runs_bind; [apply runs_emit; by apply writer_P|]; intros _ w9;
         apply runs_ret). }
    intros error w7.
    destruct error; cbn [negb]; try apply lands_invoke.
    apply lands_reaches.
    + eapply reaches_weaken; [apply writer_P|apply archive_reaches].
    + intros args w8. apply lands_invoke.
Qed.

End Landing.

(** C10. The task of index.js passes the cache directory and then the
    completion callback to [loadDependencies], which declares one
    parameter: that parameter is bound to the cache-directory string,
    no function handed in by the caller is ever called, and the
    operation, unless a library call throws first, ends by calling the
    string, which raises a TypeError. *)
Theorem cli_callback_is_a_string (E : env) (self : config)
        (optsCacheDirectory : string) (callback : value) (w : world) :
  loadTask E self optsCacheDirectory callback
  = loadDependencies E self (VStr optsCacheDirectory)
  ∧ ((∃ args w1,
        loadTask E self optsCacheDirectory callback w
        = Thrown (VError ("TypeError: " +:+ optsCacheDirectory +:+ " is not a function"))
                 (logged w1 [Invoke (VStr optsCacheDirectory) args])
        ∧ extends not_invoke w w1)
     ∨ (∃ e w', loadTask E self optsCacheDirectory callback w = Thrown e w'
                ∧ extends not_invoke w w'))
  ∧ extends calls_no_function w
      (outcome_world (loadTask E self optsCacheDirectory callback w)).
Proof.
  split; [done|].
  assert ((∃ args w1,
        loadTask E self optsCacheDirectory callback w
        = Thrown (VError ("TypeError: " +:+ optsCacheDirectory +:+ " is not a function"))
                 (logged w1 [Invoke (VStr optsCacheDirectory) args])
        ∧ extends not_invoke w w1)
     ∨ (∃ e w', loadTask E self optsCacheDirectory callback w = Thrown e w'
                ∧ extends not_invoke w w')) as Hends.
  { destruct (load_lands E self not_invoke) with (callback := VStr optsCacheDirectory) (w := w)
      as [(args & w1 & Hrun & Hext)|(e & w' & Hrun & Hext)];
      try (by intros []); [left|right].
    - exists args, w1. split; [|done]. unfold loadTask. cbn [arg0 nth]. by rewrite Hrun.
    - exists e, w'. split; [|done]. unfold loadTask. cbn [arg0 nth]. by rewrite Hrun. }
  split; [exact Hends|].
  assert (∀ w1 w2, extends not_invoke w1 w2 → extends calls_no_function w1 w2) as Hweak.
  { intros w1 w2 (l & Hl & HF). exists l. split; [done|].
    apply forallb_forall. intros e He.
    pose proof (proj1 (forallb_forall _ l) HF e He) as Hn. by destruct e. }
  destruct Hends as [(args & w1 & -> & Hext)|(e & w' & -> & Hext)]; cbn [outcome_world].
  - eapply extends_trans; [by apply Hweak|]. by apply extends_emit.
  - by apply Hweak.
Qed.

(** * The Archive Writer *)

Lemma lock_tmp_runs (E : env) (P : event → bool) cachePath w :
  (∀ e, locking_event e = true → P e = true) → runs P (lock_tmp E cachePath) w.
Proof.
  intros HP. unfold lock_tmp. cbv zeta.
  apply runs_bind; [apply runs_ensureFileSync; by apply HP|]. intros _ w1.
  apply runs_bind; [apply runs_openSync; intros fd; by apply HP|]. intros fd w2.
  apply runs_bind; [apply runs_flockSync; by apply HP|]. intros _ w3.
  apply runs_ret.
Qed.

(** How the writer goes on once the temporary path is locked. *)
Lemma archive_after_lock (E : env) (self : config) cacheDirectory' cachePath
      (callback : Callback) w fd w1 :
  exists_at E w (getAbsolutePath E (installDirectory self)) = true →
  lock_tmp E cachePath
    (logged w [LogInfo ("[" +:+ cliName self +:+ "] " +:+ "archiving dependencies from "
                        +:+ getAbsolutePath E (installDirectory self))])
  = Done fd w1 →
  archiveDependencies E self cacheDirectory' cachePath callback w
  = (if exists_at E w1 cachePath then
       cacheLogInfo self "skipping archive because target cache file already exists.";;;
       callback []
     else
       series
         [ (λ cb,
              compress E (getAbsolutePath E (installDirectory self)) (cachePath +:+ "~")
                (λ args,
                   if truthy (arg0 args) then
                     cacheLogError self
                       ("error tar-ing " +:+ getAbsolutePath E (installDirectory self)
                        +:+ ": " +:+ message (arg0 args));;;
                     cb [VStr ("error tar-ing " +:+ getAbsolutePath E (installDirectory self)
                               +:+ ": " +:+ message (arg0 args))]
                   else
                     cacheLogInfo self "installed and archived dependencies";;;
                     cb [VNull]));
           (λ cb, rename E (cachePath +:+ "~") cachePath cb);
           (λ cb, flock E fd LockUn cb) ]
         callback) w1.
Proof.
  intros Hinst Hlock. unfold exists_at in Hinst.
  unfold lock_tmp, bind in Hlock. cbv zeta in Hlock.
  unfold archiveDependencies, bind, existsSync at 1, cacheLogInfo at 1, logInfo at 1.
  cbv zeta. rewrite emit_log. cbn [fs logged]. rewrite Hinst. cbn [negb].
  destruct (ensureFileSync E (cachePath +:+ "~") _) as [[] w2|] eqn:H2; [|done].
  destruct (openSync E (cachePath +:+ "~") FlagW w2) as [fd' w3|] eqn:H3; [|done].
  destruct (flockSync E fd' LockEx w3) as [[] w4|] eqn:H4; [|done].
  injection Hlock as -> ->.
  unfold existsSync, exists_at. by destruct (bool_decide _).
Qed.

(** C7. The archive writer calls back without an error and without
    having compressed anything when the install directory does not
    exist, and when, the temporary path being locked, there is a file
    at the final cache path. *)
Theorem archive_skips (E : env) (self : config) (cacheDirectory' cachePath : string)
        (callback : Callback) (w : world) :
  let installedDirectory := getAbsolutePath E (installDirectory self) in
  let w0 := logged w [LogInfo ("[" +:+ cliName self +:+ "] "
                               +:+ "archiving dependencies from " +:+ installedDirectory)] in
  (exists_at E w installedDirectory = false →
   archiveDependencies E self cacheDirectory' cachePath callback w
   = callback []
       (logged w0 [LogInfo ("[" +:+ cliName self +:+ "] "
                            +:+ "skipping archive. Install directory does not exist.")]))
  ∧ (∀ fd w1,
       exists_at E w installedDirectory = true →
       lock_tmp E cachePath w0 = Done fd w1 →
       exists_at E w1 cachePath = true →
       archiveDependencies E self cacheDirectory' cachePath callback w
       = callback []
           (logged w1 [LogInfo ("[" +:+ cliName self +:+ "] "
                  +:+ "skipping archive because target cache file already exists.")])
       ∧ extends not_compress w w1)
  ∧ truthy (arg0 []) = false.
Proof.
  intros installedDirectory w0. split; [|split; [|done]].
  - intros Hinst. unfold exists_at in Hinst.
    unfold archiveDependencies, bind, existsSync, cacheLogInfo, logInfo.
    cbv zeta. rewrite emit_log. cbn [fs logged]. fold installedDirectory.
    rewrite Hinst. cbn [negb]. by rewrite emit_log.
  - intros fd w1 Hinst Hlock Hcached. split.
    + rewrite (archive_after_lock E self _ _ callback w fd w1 Hinst Hlock).
      by rewrite Hcached.
    + eapply (extends_trans _ w w0 w1); [subst w0; apply extends_emit; reflexivity|].
      destruct (lock_tmp_runs E not_compress cachePath w0)
        as [(a & w' & Hm & H')|(e & w' & Hm & H')]; [by intros [| | | | | | | | | |]| |];
        rewrite Hlock in Hm; by simplify_eq.
Qed.

Lemma events_since_app w l w' :
  trace w' = trace w ++ l → events_since w w' = l.
Proof. intros H. unfold events_since. rewrite H. apply drop_app_length. Qed.

Lemma snapshots_since_app w l w' :
  history w' = history w ++ l → snapshots_since w w' = l.
Proof. intros H. unfold snapshots_since. rewrite H. apply drop_app_length. Qed.

Lemma exists_at_false E w p : exists_at E w p = false → fs w !! abs E p = None.
Proof.
  unfold exists_at. intros H%bool_decide_eq_false.
  destruct (fs w !! abs E p) eqn:Hp; [|done]. exfalso. apply H. eauto.
Qed.

Lemma exists_at_true E w p : exists_at E w p = true → is_Some (fs w !! abs E p).
Proof. unfold exists_at. by intros H%bool_decide_eq_true. Qed.

Lemma tar_error_truthy s : truthy (VStr ("error tar-ing " +:+ s)) = true.
Proof. reflexivity. Qed.

Lemma abs_tilde_ne E p : abs E (p +:+ "~") ≠ abs E p.
Proof. apply PathFacts.resolve_tilde_ne. Qed.

(** C4. Once the temporary path is locked and the final path is free,
    the writer compresses into cachePath~ and renames only after a
    compression without error.  Every state the file system goes
    through has, at the final path, nothing or the complete archive.
    When compression fails the callback gets the error, the final path
    stays empty and the temporary file keeps what was written. *)
Theorem archive_is_atomic (E : env) (self : config) (cacheDirectory' cachePath : string)
        (callback : Callback) (w : world) (fd : nat) (w1 : world) :
  let installedDirectory := getAbsolutePath E (installDirectory self) in
  let tmp := abs E (cachePath +:+ "~") in
  let final := abs E cachePath in
  let complete := File (Targz (pack (abs E installedDirectory) (fs w1))) in
  exists_at E w installedDirectory = true →
  lock_tmp E cachePath
    (logged w [LogInfo ("[" +:+ cliName self +:+ "] " +:+ "archiving dependencies from "
                        +:+ installedDirectory)])
  = Done fd w1 →
  exists_at E w1 cachePath = false →
  ∃ v w',
    archiveDependencies E self cacheDirectory' cachePath callback w = callback [v] w'
    ∧ Forall (λ m : gmap string node, m !! final = None ∨ m !! final = Some complete)
             (snapshots_since w1 w')
    ∧ match compress_error E (abs E installedDirectory) tmp with
      | Some (msg, partial) =>
          v = VStr ("error tar-ing " +:+ installedDirectory +:+ ": " +:+ msg)
          ∧ truthy v = true
          ∧ events_since w1 w'
            = [Compress (abs E installedDirectory) tmp;
               LogError ("[" +:+ cliName self +:+ "] " +:+ "error tar-ing "
                         +:+ installedDirectory +:+ ": " +:+ msg)]
          ∧ fs w' !! final = None
          ∧ fs w' !! tmp = Some (File partial)
      | None =>
          ∃ rest,
            events_since w1 w'
            = [Compress (abs E installedDirectory) tmp;
               LogInfo ("[" +:+ cliName self +:+ "] "
                        +:+ "installed and archived dependencies");
               Rename tmp final] ++ rest
            ∧ forallb not_compress_or_rename rest = true
            ∧ match rename_error E tmp final with
              | Some msg =>
                  v = VError msg ∧ fs w' !! final = None ∧ fs w' !! tmp = Some complete
              | None => fs w' !! final = Some complete ∧ fs w' !! tmp = None
              end
      end.
Proof.
  intros installedDirectory tmp final complete Hinst Hlock Hfree.
  rewrite (archive_after_lock E self _ _ callback w fd w1 Hinst Hlock), Hfree.
  apply exists_at_false in Hfree. fold final in Hfree.
  assert (tmp ≠ final) as Hne by apply abs_tilde_ne.
  fold installedDirectory.
  unfold series, compress, rename, flock, bind, cacheLogError, cacheLogInfo, logError, logInfo.
  rewrite !emit_log. cbn [get_fs fs logged].
  fold tmp final.
  destruct (compress_error E (abs E installedDirectory) tmp) as [[msg partial]|] eqn:Hc.
  - eexists _, _. split.
    { cbn [arg0 nth message]. rewrite tar_error_truthy. cbn. reflexivity. }
    split.
    { rewrite (snapshots_since_app w1 [<[tmp := File partial]> (fs w1)]) by done.
      constructor; [|done]. left. by rewrite lookup_insert_ne. }
    split; [reflexivity|]. split; [apply tar_error_truthy|].
    split; [apply events_since_app; cbn; by flatten|].
    cbn. split; [by rewrite lookup_insert_ne|apply lookup_insert_eq].
  - cbn.
    rewrite lookup_insert_eq. fold complete.
    destruct (rename_error E tmp final) as [msg|] eqn:Hr.
    + eexists _, _. split; [reflexivity|]. split.
      { rewrite (snapshots_since_app w1 [<[tmp := complete]> (fs w1)]) by done.
        constructor; [|done]. left. by rewrite lookup_insert_ne. }
      exists []. split; [apply events_since_app; cbn; by flatten|].
      split; [done|]. cbn.
      split; [done|]. split; [by rewrite lookup_insert_ne|apply lookup_insert_eq].
    + assert (∀ m : gmap string node,
                In m [<[tmp := complete]> (fs w1);
                      <[final := complete]> (delete tmp (<[tmp := complete]> (fs w1)))] →
                m !! final = None ∨ m !! final = Some complete) as Hsnap.
      { intros m [<-|[<-|[]]].
        - left. by rewrite lookup_insert_ne.
        - right. apply lookup_insert_eq. }
      destruct (flock_error E fd LockUn) as [msg|] eqn:Hu.
      * eexists _, _. split; [reflexivity|]. split.
        { erewrite snapshots_since_app by (cbn; by flatten).
          by apply List.Forall_forall. }
        exists [Flock fd LockUn]. split; [apply events_since_app; cbn; by flatten|].
        split; [done|]. cbn.
        split; [apply lookup_insert_eq|].
        rewrite lookup_insert_ne by done. apply lookup_delete_eq.
      * eexists _, _. split; [reflexivity|]. split.
        { erewrite snapshots_since_app by (cbn; by flatten).
          by apply List.Forall_forall. }
        exists [Flock fd LockUn]. split; [apply events_since_app; cbn; by flatten|].
        split; [done|]. cbn.
        split; [apply lookup_insert_eq|].
        rewrite lookup_insert_ne by done. apply lookup_delete_eq.
Qed.

(** * The Archive Reader *)

Lemma cleared_lookup d m p : under d p = true → cleared d m !! p = None.
Proof.
  intros Hu. unfold cleared. apply map_lookup_filter_None. right.
  intros x _. cbn. by rewrite Hu.
Qed.


(** [mkdirs], path by path: what is there stays, and a directory
    appears where one was asked for and nothing was. *)
Lemma mkdirs_spec dirs (m : gmap string node) p :
  mkdirs dirs m !! p
  = match m !! p with
    | Some n => Some n
    | None => if bool_decide (p ∈ dirs) then Some Dir else None
    end.
Proof.
  revert m. induction dirs as [|d dirs IH]; intros m.
  - cbn. by destruct (m !! p).
  - cbn [mkdirs fold_left]. change (fold_left mkdir_missing dirs ?a) with (mkdirs dirs a).
    rewrite IH. unfold mkdir_missing.
    destruct (decide (d = p)) as [->|Hne].
    + destruct (m !! p) eqn:Hp; [by rewrite Hp|].
      rewrite lookup_insert_eq. rewrite bool_decide_eq_true_2; [done|apply list_elem_of_here].
    + assert (bool_decide (p ∈ d :: dirs) = bool_decide (p ∈ dirs)) as ->.
      { destruct (decide (p ∈ dirs)) as [Hin|Hout].
        - rewrite !bool_decide_eq_true_2; [done|done|]. by apply list_elem_of_further.
        - rewrite !bool_decide_eq_false_2; [done|done|].
          intros [->|H]%elem_of_cons; done. }
      destruct (m !! d) eqn:Hd; [done|]. by rewrite lookup_insert_ne.
Qed.

Lemma mkdirs_preserves dirs (m : gmap string node) p n :
  m !! p = Some n → mkdirs dirs m !! p = Some n.
Proof. intros Hp. by rewrite mkdirs_spec, Hp. Qed.

Lemma write_entries_snoc dest entries entry m :
  write_entries dest (entries ++ [entry]) m
  = write_entry dest (write_entries dest entries m) entry.
Proof. unfold write_entries. by rewrite fold_left_app. Qed.

Lemma unpacked_file_snoc dest entries entry p :
  unpacked_file dest (entries ++ [entry]) p
  = match entry.2 with
    | File contents =>
        if String.eqb (join2 dest entry.1) p then Some contents
        else unpacked_file dest entries p
    | Dir => unpacked_file dest entries p
    end.
Proof. unfold unpacked_file. by rewrite fold_left_app. Qed.

Lemma above_unpacked_snoc dest entries entry p :
  above_unpacked dest (entries ++ [entry]) p
  = above_unpacked dest entries p
    || match entry.2 with
       | File _ => bool_decide (p ∈ ancestors (join2 dest entry.1))
       | Dir => false
       end.
Proof. unfold above_unpacked. rewrite existsb_app. cbn. by rewrite orb_false_r. Qed.

(** Unpacking entry by entry gives, at every path, what [unpacked]
    says. *)
Lemma write_entries_unpacked dest entries m p :
  write_entries dest entries m !! p = unpacked dest entries m p.
Proof.
  induction entries as [|[name n] entries IH] using rev_ind.
  - unfold unpacked. cbn. by destruct (m !! p).
  - rewrite write_entries_snoc. unfold unpacked in *.
    rewrite unpacked_file_snoc, above_unpacked_snoc. unfold write_entry. cbn [fst snd].
    destruct n as [|contents].
    { rewrite IH. by rewrite orb_false_r. }
    destruct (String.eqb (join2 dest name) p) eqn:Heq.
    { apply String.eqb_eq in Heq as ->. by rewrite lookup_insert_eq. }
    apply String.eqb_neq in Heq. rewrite lookup_insert_ne by done.
    rewrite mkdirs_spec, IH.
    destruct (unpacked_file dest entries p); [done|].
    destruct (m !! p); [done|].
    by destruct (above_unpacked dest entries p).
Qed.

Lemma write_entry_unpacked dest entry m p :
  write_entry dest m entry !! p = unpacked dest [entry] m p.
Proof. by rewrite <- write_entries_unpacked. Qed.

Lemma abs_getAbsolutePath E p : abs E (getAbsolutePath E p) = getAbsolutePath E p.
Proof. apply PathFacts.resolve_idem. Qed.


(** Where the reader stands at its callback when nothing fails. *)
Lemma extract_success (E : env) (self : config) (cachePath : string) (w : world)
      (contents : fdata) :
  let directory := getAbsolutePath E (installDirectory self) in
  cleared directory (fs w) !! abs E cachePath = Some (File contents) →
  cut_short contents = false →
  flock_error E (next_fd w) LockSh = None →
  decompress_error E (abs E cachePath) = None →
  flock_error E (next_fd w) LockUn = None →
  ∃ w',
    (∀ callback, extractDependencies E self cachePath callback w
                 = callback [VUndefined] w')
    ∧ (∀ p, fs w' !! p
            = unpacked (abs E (cwd E)) (handed_on (abs E cachePath) contents)
                       (cleared directory (fs w)) p)
    ∧ locks w' = delete (next_fd w) (<[next_fd w := LockSh]> (locks w))
    ∧ open_files w' = <[next_fd w := abs E cachePath]> (open_files w)
    ∧ extends not_exec w w'.
Proof.
  intros directory Hcache Hcut Hsh Hde Hun.
  eexists. split; [|split; [|split; [|split]]].
  - intros callback.
    unfold extractDependencies, removeSync, openSync, series, flock, decompress, bind,
      cacheLogInfo, cacheLogError, logInfo, logError.
    cbv zeta. rewrite !emit_log. cbn [get_fs set_fs fs logged].
    rewrite abs_getAbsolutePath. fold directory.
    cbn -[write_entries abs toString cleared handed_on cut_short]. rewrite Hcache.
    cbn -[write_entries abs toString cleared handed_on cut_short]. rewrite Hsh.
    cbn -[write_entries abs toString cleared handed_on cut_short].
    rewrite Hcache, Hcut, Hde.
    cbn -[write_entries abs toString cleared handed_on cut_short]. rewrite Hun.
    cbn -[write_entries abs toString cleared handed_on cut_short]. reflexivity.
  - intros p. cbn [fs]. apply write_entries_unpacked.
  - reflexivity.
  - reflexivity.
  - eexists. split; [cbn; flatten; reflexivity|done].
Qed.




(** A gzip stream that was cut short: the extraction ends with the
    exception of zlib, the callback is not called, the install
    directory stays cleared and the shared lock is still held. *)
Example extraction_of_a_stream_cut_short :
  match extractDependencies Sample.machine Sample.npm Sample.cache_file
          (λ _, throw (VStr "called back")) Scenario.cut_short with
  | Thrown e w' =>
      e = VError "unexpected end of file"
      ∧ fs w' !! "/work/node_modules" = None
      ∧ fs w' !! "/work/node_modules/old.js" = None
      ∧ locks w' !! 3%nat = Some LockSh
  | Done _ _ => False
  end.
Proof. vm_compute. repeat split. Qed.

(** ** Archive and extraction together *)

Module RoundTrip.
Import Path PathFacts.

Lemma prefix_app p k : String.prefix p k = true → ∃ x, k = p +:+ x.
Proof.
  revert k. induction p as [|c p IH]; intros k H.
  - by exists k.
  - destruct k as [|c' k]; [done|]. cbn in H.
    destruct (ascii_dec c c') as [->|]; [|done].
    destruct (IH k H) as [x ->]. by exists x.
Qed.

Lemma substring_all s : String.substring 0 (String.length s) s = s.
Proof. induction s as [|c s IH]; [done|]. cbn. by rewrite IH. Qed.

Lemma drop_string_app a b : drop_string (String.length a) (a +:+ b) = b.
Proof.
  unfold drop_string. rewrite slength_app.
  replace (String.length a + String.length b - String.length a)%nat
    with (String.length b) by lia.
  induction a as [|c a IH]; [apply substring_all|].
  rewrite sapp_cons. cbn. apply IH.
Qed.

Lemma join_app a b : a ≠ [] → b ≠ [] → join (a ++ b) = join a +:+ "/" +:+ join b.
Proof.
  induction a as [|x [|y a] IH]; [done| |]; intros _ Hb.
  - destruct b; [done|]. done.
  - change ((x :: y :: a) ++ b) with (x :: y :: (a ++ b)).
    rewrite !join_cons. change (y :: a ++ b) with ((y :: a) ++ b).
    rewrite IH by done. by rewrite !sapp_assoc.
Qed.

Lemma join_not_empty st :
  st ≠ [] → Forall (λ x, plain x = true) st → join st ≠ "".
Proof.
  destruct st as [|a [|b st]]; [done| |]; intros _ Hst; inversion Hst; subst.
  - cbn. intros ->. done.
  - rewrite join_cons. destruct a; [done|]. by rewrite sapp_cons.
Qed.

(** An absolute normal path and its segments. *)
Lemma normal_segments cwd k :
  resolve cwd [k] = k → ∃ st, k = "/" +:+ join st ∧ Forall (λ x, plain x = true) st.
Proof.
  intros Hk. exists (resolve_segs cwd [k]). split; [|apply resolve_segs_plain].
  by rewrite <- resolve_eq.
Qed.

Lemma rooted_inj st st' :
  Forall (λ x, plain x = true) st → Forall (λ x, plain x = true) st' →
  "/" +:+ join st = "/" +:+ join st' → st = st'.
Proof.
  intros H H' Heq.
  change (String sep (join st) = String sep (join st')) in Heq. injection Heq as Heq.
  destruct st as [|a st], st' as [|a' st']; [done| | |].
  - exfalso. by apply (join_not_empty (a' :: st')).
  - exfalso. by apply (join_not_empty (a :: st)).
  - apply (f_equal split) in Heq. by rewrite !split_join in Heq.
Qed.

Section Unpack.
Variable cwd : string.
Variable dir : string.
Hypothesis dir_plain : plain dir = true.

Let base := resolve_segs cwd [cwd].

Lemma directory_segs : resolve_segs cwd [cwd; dir] = base ++ [dir].
Proof.
  destruct (plain_relative _ dir_plain) as [H1 H2].
  unfold base, resolve_segs. cbn [rev List.app resolve_head]. rewrite H1, H2.
  rewrite split_app, normalize_app, (split_no_sep dir) by by apply plain_no_sep.
  cbn [fold_left]. by rewrite norm_step_plain.
Qed.

Lemma base_plain : Forall (λ x, plain x = true) base.
Proof. apply resolve_segs_plain. Qed.

(** The keys at and below the directory are the paths whose segments
    start with those of the directory. *)
Lemma under_segments st :
  Forall (λ x, plain x = true) st →
  under (resolve cwd [cwd; dir]) ("/" +:+ join st) = true →
  ∃ rest, st = base ++ dir :: rest.
Proof.
  intros Hst. rewrite resolve_eq, directory_segs. unfold under.
  pose proof base_plain as Hbase.
  assert (Forall (λ x, plain x = true) (base ++ [dir])) as Hdir.
  { apply Forall_app. split; [done|]. by constructor. }
  intros [Heq|Hpre]%orb_prop.
  - apply String.eqb_eq in Heq. apply rooted_inj in Heq; [|done..].
    exists []. by rewrite Heq.
  - assert (String.eqb ("/" +:+ join (base ++ [dir])) "/" = false) as Hroot.
    { apply String.eqb_neq. intros H.
      change (String sep (join (base ++ [dir])) = String sep "") in H. injection H as H.
      apply (join_not_empty (base ++ [dir])); [by destruct base|done|done]. }
    rewrite Hroot in Hpre. apply prefix_app in Hpre as [x Hx].
    rewrite sapp_assoc in Hx. apply (f_equal split) in Hx.
    rewrite split_app in Hx.
    change ("/" +:+ join st) with (String sep (join st)) in Hx.
    change ("/" +:+ join (base ++ [dir])) with (String sep (join (base ++ [dir]))) in Hx.
    cbn [split] in Hx. rewrite Ascii.eqb_refl in Hx.
    rewrite (split_join (base ++ [dir])) in Hx by (by destruct base || done).
    destruct st as [|a st].
    + change (join []) with "" in Hx. cbn [split] in Hx. injection Hx as Hx.
      apply (f_equal length) in Hx. rewrite !length_app in Hx.
      pose proof (split_nonempty x). destruct (split x); [done|]. cbn in Hx. lia.
    + rewrite split_join in Hx by done. injection Hx as Hx.
      pose proof (split_nonempty x). destruct (split x) as [|y ys] eqn:Hsx; [done|].
      exists (y :: ys). rewrite Hx. by rewrite <- List.app_assoc.
Qed.

Lemma normalize_of_rooted st :
  Forall (λ x, plain x = true) st → normalize (split ("/" +:+ join st)) = st.
Proof.
  intros Hst. rewrite <- (List.app_nil_r (split _)). by rewrite normalize_rooted.
Qed.

(** The name an entry gets in the archive leads back to its key when
    it is joined to the working directory. *)
Lemma unpack_name k :
  resolve cwd [k] = k → under (resolve cwd [cwd; dir]) k = true →
  let src := resolve cwd [resolve cwd [cwd; dir]] in
  let parent := "/" +:+ join (removelast (normalize (split src))) in
  let skip := if String.eqb parent "/" then 1%nat else S (String.length parent) in
  join2 (resolve cwd [cwd]) (drop_string skip k) = k.
Proof.
  intros Hk Hunder src parent skip.
  destruct (normal_segments cwd k Hk) as (st & -> & Hst).
  destruct (under_segments st Hst Hunder) as [rest ->].
  pose proof base_plain as Hbase.
  apply Forall_app in Hst as [_ Htail].
  assert (parent = "/" +:+ join base) as Hparent.
  { unfold parent, src. rewrite resolve_idem, resolve_eq, directory_segs.
    rewrite normalize_of_rooted.
    - by rewrite removelast_last.
    - apply Forall_app. split; [done|]. by constructor. }
  assert (drop_string skip ("/" +:+ join (base ++ dir :: rest)) = join (dir :: rest))
    as Hname.
  { unfold skip. rewrite Hparent. destruct base as [|b bs] eqn:Hb.
    - change ("/" +:+ join []) with "/". cbn [String.eqb Ascii.eqb]. cbn [List.app].
      apply (drop_string_app "/").
    - assert (String.eqb ("/" +:+ join (b :: bs)) "/" = false) as ->.
      { apply String.eqb_neq. intros H.
        change (String sep (join (b :: bs)) = String sep "") in H. injection H as H.
        by apply (join_not_empty (b :: bs)). }
      rewrite join_app by done.
      replace (S (String.length ("/" +:+ join (b :: bs))))
        with (String.length (("/" +:+ join (b :: bs)) +:+ "/"))
        by (rewrite slength_app; cbn; lia).
      rewrite <- (drop_string_app (("/" +:+ join (b :: bs)) +:+ "/") (join (dir :: rest)))
        at 2.
      by rewrite !sapp_assoc. }
  rewrite Hname. unfold join2. rewrite split_app.
  rewrite (resolve_eq cwd [cwd]). fold base.
  rewrite normalize_rooted by done.
  rewrite split_join by done. by rewrite fold_norm_plain.
Qed.


End Unpack.


End RoundTrip.

Lemma unpacked_file_Some dest entries p contents :
  unpacked_file dest entries p = Some contents →
  ∃ name, (name, File contents) ∈ entries ∧ join2 dest name = p.
Proof.
  induction entries as [|[name n] entries IH] using rev_ind; [done|].
  rewrite unpacked_file_snoc. cbn [fst snd]. intros H.
  assert (unpacked_file dest entries p = Some contents →
          ∃ name0, (name0, File contents) ∈ entries ++ [(name, n)] ∧ join2 dest name0 = p)
    as Hold.
  { intros Hp. destruct (IH Hp) as (name0 & Hin & Ht). exists name0. split; [|done].
    apply elem_of_app. by left. }
  destruct n as [|c]; [by apply Hold|].
  destruct (String.eqb (join2 dest name) p) eqn:Heq; [|by apply Hold].
  injection H as ->. apply String.eqb_eq in Heq. exists name. split; [|done].
  apply elem_of_app. right. apply list_elem_of_here.
Qed.

Lemma unpacked_file_None dest entries p name contents :
  unpacked_file dest entries p = None →
  (name, File contents) ∈ entries → join2 dest name ≠ p.
Proof.
  induction entries as [|[name' n] entries IH] using rev_ind.
  { intros _ H. by apply elem_of_nil in H. }
  rewrite unpacked_file_snoc. cbn [fst snd]. intros H Hin.
  apply elem_of_app in Hin as [Hin|Hin].
  - apply IH; [|done]. destruct n as [|c]; [done|].
    by destruct (String.eqb (join2 dest name') p).
  - apply list_elem_of_singleton in Hin. injection Hin as <- <-.
    destruct (String.eqb (join2 dest name) p) eqn:Heq; [done|].
    by apply String.eqb_neq.
Qed.

Lemma above_unpacked_true dest entries p :
  above_unpacked dest entries p = true ↔
  ∃ name contents, (name, File contents) ∈ entries ∧ p ∈ ancestors (join2 dest name).
Proof.
  unfold above_unpacked. rewrite existsb_exists. split.
  - intros ([name n] & Hin & H). cbn in H. destruct n as [|c]; [done|].
    apply bool_decide_eq_true in H. exists name, c. split; [|done].
    by apply list_elem_of_In.
  - intros (name & c & Hin & H). exists (name, File c). split.
    + by apply list_elem_of_In.
    + cbn. by apply bool_decide_eq_true.
Qed.

Lemma holds_file_true d (m : gmap string node) p :
  holds_file d m p = true ↔
  ∃ k contents, m !! k = Some (File contents) ∧ under d k = true ∧ p ∈ ancestors k.
Proof.
  unfold holds_file. rewrite existsb_exists. split.
  - intros ([k n] & Hin & H). cbn in H. destruct n as [|c]; [done|].
    apply andb_prop in H as [Hu H]. apply bool_decide_eq_true in H.
    exists k, c. split; [|done]. by apply elem_of_map_to_list, list_elem_of_In.
  - intros (k & c & Hk & Hu & H). exists (k, File c). split.
    + by apply list_elem_of_In, elem_of_map_to_list.
    + cbn. rewrite Hu. by apply bool_decide_eq_true.
Qed.

(** Unpacking the archive of a tidy directory into a file system that
    has nothing there puts back, under the directory, the files that
    were packed and the directories above them. *)
Lemma unpacked_pack (E : env) (dir : string) (m bare : gmap string node) :
  let directory := getAbsolutePath E dir in
  Path.plain dir = true →
  tidy E directory m →
  (∀ p, under directory p = true → bare !! p = None) →
  ∀ p, under directory p = true →
       unpacked (abs E (cwd E)) (pack (abs E directory) m) bare p = survives directory m p.
Proof.
  intros directory Hdir Htidy Hbare p Hp.
  unfold pack. cbv zeta.
  set (skip := if String.eqb _ "/" then 1%nat else _).
  set (L := map_to_list _).
  set (entries := map _ L).
  assert (∀ name n, (name, n) ∈ entries →
            ∃ k, m !! k = Some n ∧ under directory k = true
                 ∧ join2 (abs E (cwd E)) name = k) as Hentries.
  { intros name n Hin. apply list_elem_of_fmap in Hin as ([k n'] & [= -> ->] & Hin).
    apply elem_of_map_to_list in Hin.
    apply map_lookup_filter_Some in Hin as [Hk Hu]. cbn in Hu.
    unfold directory in Hu. rewrite abs_getAbsolutePath in Hu.
    exists k. split; [done|]. split; [done|]. cbn [fst].
    apply (RoundTrip.unpack_name (cwd E) dir Hdir); [|exact Hu].
    by apply (proj1 (Htidy _ _ Hk Hu)). }
  assert (∀ k n, m !! k = Some n → under directory k = true →
            ∃ name, (name, n) ∈ entries ∧ join2 (abs E (cwd E)) name = k) as Hkeys.
  { intros k n Hk Hu. exists (drop_string skip k). split.
    - apply list_elem_of_fmap. exists (k, n). split; [done|].
      apply elem_of_map_to_list, map_lookup_filter_Some. split; [done|]. cbn.
      unfold directory. by rewrite abs_getAbsolutePath.
    - apply (RoundTrip.unpack_name (cwd E) dir Hdir); [|exact Hu].
      by apply (proj1 (Htidy _ _ Hk Hu)). }
  unfold unpacked, survives. rewrite (Hbare p Hp).
  destruct (unpacked_file (abs E (cwd E)) entries p) as [c|] eqn:Hfile.
  { apply unpacked_file_Some in Hfile as (name & Hin & Ht).
    destruct (Hentries _ _ Hin) as (k & Hk & _ & Hk'). rewrite Ht in Hk'. subst k.
    by rewrite Hk. }
  assert (∀ c, m !! p ≠ Some (File c)) as Hnofile.
  { intros c Hm. destruct (Hkeys _ _ Hm Hp) as (name & Hin & Ht).
    by apply (unpacked_file_None _ _ _ _ _ Hfile Hin). }
  destruct (above_unpacked (abs E (cwd E)) entries p) eqn:Habove.
  - apply above_unpacked_true in Habove as (name & c & Hin & Hanc).
    destruct (Hentries _ _ Hin) as (k & Hk & Hu & Hk'). rewrite Hk' in Hanc.
    rewrite (proj2 (Htidy _ _ Hk Hu) p Hanc Hp).
    assert (holds_file directory m p = true) as ->; [|done].
    apply holds_file_true. by exists k, c.
  - destruct (m !! p) as [[|c]|] eqn:Hm; [|by destruct (Hnofile c)|done].
    destruct (holds_file directory m p) eqn:Hholds; [|done].
    apply holds_file_true in Hholds as (k & c & Hk & Hu & Hanc).
    destruct (Hkeys _ _ Hk Hu) as (name & Hin & Ht).
    assert (above_unpacked (abs E (cwd E)) entries p = true) as Hyes.
    { apply above_unpacked_true. exists name, c. by rewrite Ht. }
    by rewrite Hyes in Habove.
Qed.

(** * The Cache Orchestrator on a hit *)




(** * Locks *)

Lemma lock_tmp_holds E cachePath w fd w1 :
  lock_tmp E cachePath w = Done fd w1 → locks w1 !! fd = Some LockEx.
Proof.
  unfold lock_tmp, bind. cbv zeta.
  destruct (ensureFileSync E (cachePath +:+ "~") w) as [[] w2|]; [|done].
  destruct (openSync E (cachePath +:+ "~") FlagW w2) as [fd' w3|]; [|done].
  unfold flockSync, bind. rewrite emit_log.
  destruct (flock_error E fd' LockEx); [done|].
  cbn. intros [= <- <-]. cbn. apply lookup_insert_eq.
Qed.

(** The writer still holds its exclusive lock at the callback of the
    skip path and at the callback of a failed compression, whatever the
    world it started in. *)
Lemma writer_keeps_lock (E : env) (self : config) (cacheDirectory' cachePath : string)
      (callback : Callback) (w : world) (fd : nat) (w1 : world) :
  exists_at E w (getAbsolutePath E (installDirectory self)) = true →
  lock_tmp E cachePath
    (logged w [LogInfo ("[" +:+ cliName self +:+ "] " +:+ "archiving dependencies from "
                        +:+ getAbsolutePath E (installDirectory self))])
  = Done fd w1 →
  (exists_at E w1 cachePath = true →
   ∃ w', archiveDependencies E self cacheDirectory' cachePath callback w = callback [] w'
         ∧ locks w' !! fd = Some LockEx)
  ∧ (exists_at E w1 cachePath = false →
     ∀ msg partial,
       compress_error E (abs E (getAbsolutePath E (installDirectory self)))
         (abs E (cachePath +:+ "~")) = Some (msg, partial) →
       ∃ v w', archiveDependencies E self cacheDirectory' cachePath callback w
               = callback [v] w'
               ∧ truthy v = true
               ∧ locks w' !! fd = Some LockEx).
Proof.
  intros Hinst Hlock. pose proof (lock_tmp_holds _ _ _ _ _ Hlock) as Hheld.
  rewrite (archive_after_lock E self _ _ callback w fd w1 Hinst Hlock).
  split; intros Hcached; rewrite Hcached.
  - eexists. split; [unfold cacheLogInfo, logInfo, bind; by rewrite emit_log|]. done.
  - intros msg partial Hc.
    unfold series, compress, bind, cacheLogError, logError. rewrite !emit_log.
    cbn [get_fs fs logged]. rewrite Hc.
    eexists _, _. split.
    { cbn [arg0 nth message set_fs]. rewrite tar_error_truthy. cbn. reflexivity. }
    split; [apply tar_error_truthy|done].
Qed.

(** The reader still holds its shared lock at the callback of a failed
    decompression. *)
Lemma reader_keeps_lock (E : env) (self : config) (cachePath : string)
      (callback : Callback) (w : world) entries msg written :
  cleared (getAbsolutePath E (installDirectory self)) (fs w) !! abs E cachePath
  = Some (File (Targz entries)) →
  flock_error E (next_fd w) LockSh = None →
  decompress_error E (abs E cachePath) = Some (msg, written) →
  ∃ w', extractDependencies E self cachePath callback w = callback [VError msg] w'
        ∧ locks w' !! next_fd w = Some LockSh.
Proof.
  intros Hcache Hsh Hde.
  unfold extractDependencies, removeSync, openSync, series, flock, decompress, bind,
    cacheLogInfo, cacheLogError, logInfo, logError.
  cbv zeta. rewrite !emit_log. cbn [get_fs set_fs fs logged].
  rewrite abs_getAbsolutePath.
  cbn -[write_entries abs toString cleared]. rewrite Hcache.
  cbn -[write_entries abs toString cleared]. rewrite Hsh.
  cbn -[write_entries abs toString cleared]. rewrite Hcache, Hde.
  eexists. split; [reflexivity|]. cbn. apply lookup_insert_eq.
Qed.

(** C5 on the code: the lock is released after a successful archive or
    extraction, and is still held when the writer skips because the
    cache file exists, when compression fails and when decompression
    fails. *)
Theorem lock_kept_on_skip_and_failure :
  locks (outcome_world
           (archiveDependencies Sample.machine Sample.npm
              (cacheDirectoryOf Sample.machine Sample.npm) Sample.cache_file
              ignore Sample.installed_world)) !! 3%nat = None
  ∧ locks (outcome_world
             (archiveDependencies Sample.machine Sample.npm
                (cacheDirectoryOf Sample.machine Sample.npm) Sample.cache_file
                ignore Sample.raced)) !! 3%nat = Some LockEx
  ∧ locks (outcome_world
             (archiveDependencies Sample.disk_full Sample.npm
                (cacheDirectoryOf Sample.disk_full Sample.npm) Sample.cache_file
                ignore Sample.installed_world)) !! 3%nat = Some LockEx
  ∧ locks (outcome_world
             (extractDependencies Sample.machine Sample.npm Sample.cache_file
                ignore Sample.cached)) !! 3%nat = None
  ∧ locks (outcome_world
             (extractDependencies Sample.bad_read Sample.npm Sample.cache_file
                ignore Sample.cached)) !! 3%nat = Some LockSh.
Proof. repeat split; vm_compute; reflexivity. Qed.

(** * The theorems at the sample inputs *)

Lemma load_without_config_or_tool_witness :
  (exists_at Sample.machine Sample.nothing (configPath Sample.npm) = false
   ∧ loadDependencies Sample.machine Sample.npm (VFun 0) Sample.nothing
     = Done tt (logged Sample.nothing
         [LogInfo "[npm] Dependency config file /work/package.json does not exist. Skipping install";
          Invoke (VFun 0) [VNull]]))
  ∧ (exists_at Sample.no_tool Sample.fresh (configPath Sample.npm) = true
     ∧ which Sample.no_tool (cliName Sample.npm) = false
     ∧ loadDependencies Sample.no_tool Sample.npm (VFun 0) Sample.fresh
       = Done tt (logged Sample.fresh
           [LogInfo "[npm] config file exists";
            LogError "[npm] Command line tool npm not installed";
            Invoke (VFun 0) [VStr "Command line tool npm not installed"]])).
Proof.
  split.
  - split; [vm_compute; reflexivity|].
    pose proof (proj1 (load_without_config_or_tool Sample.machine Sample.npm (VFun 0)
                         Sample.nothing) ltac:(vm_compute; reflexivity)) as Hrun.
    rewrite Hrun. reflexivity.
  - split; [vm_compute; reflexivity|]. split; [reflexivity|].
    pose proof (proj1 (proj2 (load_without_config_or_tool Sample.no_tool Sample.npm (VFun 0)
                         Sample.fresh) ltac:(vm_compute; reflexivity) eq_refl)) as Hrun.
    rewrite Hrun. reflexivity.
Defined.

Lemma miss_installs_then_archives_witness :
  (install_code Sample.machine Sample.npm Sample.fresh = 0
   ∧ loadDependencies Sample.machine Sample.npm (VFun 0) Sample.fresh
     = archiveDependencies Sample.machine Sample.npm
         (cacheDirectoryOf Sample.machine Sample.npm)
         (cachePathOf Sample.machine Sample.npm)
         (λ args, invoke (VFun 0) [if truthy (arg0 args) then arg0 args else VNull])
         (logged (after_install Sample.machine Sample.npm Sample.fresh)
            [LogInfo "[npm] installed npm dependencies, now archiving"]))
  ∧ (install_code Sample.broken_install Sample.npm_refresh Sample.cached ≠ 0
     ∧ loadDependencies Sample.broken_install Sample.npm_refresh (VFun 0) Sample.cached
       = Done tt (logged (after_install Sample.broken_install Sample.npm_refresh Sample.cached)
           [LogError "[npm] error running npm install";
            Invoke (VFun 0) [VStr "error running npm install"]])).
Proof.
  assert (exists_at Sample.machine Sample.fresh (configPath Sample.npm) = true) as Hconfig
    by (vm_compute; reflexivity).
  assert (exists_at Sample.machine Sample.fresh
            (cachePathOf Sample.machine Sample.npm) = false) as Hmiss
    by (vm_compute; reflexivity).
  assert (exists_at Sample.broken_install Sample.cached
            (configPath Sample.npm_refresh) = true) as Hconfig'
    by (vm_compute; reflexivity).
  split.
  - split; [reflexivity|].
    apply (proj2 (miss_installs_then_archives Sample.machine Sample.npm (VFun 0)
                    Sample.fresh Hconfig eq_refl (or_intror Hmiss))).
    reflexivity.
  - split; [by vm_compute|].
    destruct (proj1 (miss_installs_then_archives Sample.broken_install Sample.npm_refresh
                       (VFun 0) Sample.cached Hconfig' eq_refl (or_introl eq_refl)))
      as (Hrun & _ & _); [by vm_compute|].
    rewrite Hrun. vm_compute. reflexivity.
Defined.

Lemma archive_skips_witness :
  (exists_at Sample.machine Sample.fresh
     (getAbsolutePath Sample.machine (installDirectory Sample.npm)) = false
   ∧ archiveDependencies Sample.machine Sample.npm
       (cacheDirectoryOf Sample.machine Sample.npm) Sample.cache_file ignore Sample.fresh
     = Done tt (logged Sample.fresh
         [LogInfo "[npm] archiving dependencies from /work/node_modules";
          LogInfo "[npm] skipping archive. Install directory does not exist."]))
  ∧ (exists_at Sample.machine Sample.raced
       (getAbsolutePath Sample.machine (installDirectory Sample.npm)) = true
     ∧ exists_at Sample.machine
         (outcome_world
            (lock_tmp Sample.machine Sample.cache_file
               (logged Sample.raced
                  [LogInfo "[npm] archiving dependencies from /work/node_modules"])))
         Sample.cache_file = true
     ∧ forallb not_compress
         (events_since Sample.raced
            (outcome_world
               (archiveDependencies Sample.machine Sample.npm
                  (cacheDirectoryOf Sample.machine Sample.npm) Sample.cache_file ignore
                  Sample.raced))) = true).
Proof.
  assert (exists_at Sample.machine Sample.fresh
            (getAbsolutePath Sample.machine (installDirectory Sample.npm)) = false) as Hnone
    by (vm_compute; reflexivity).
  assert (exists_at Sample.machine Sample.raced
            (getAbsolutePath Sample.machine (installDirectory Sample.npm)) = true) as Hinst
    by (vm_compute; reflexivity).
  set (w0 := logged Sample.raced
               [LogInfo "[npm] archiving dependencies from /work/node_modules"]).
  assert (lock_tmp Sample.machine Sample.cache_file w0
          = Done 3%nat (outcome_world (lock_tmp Sample.machine Sample.cache_file w0)))
    as Hlock by (vm_compute; reflexivity).
  assert (exists_at Sample.machine
            (outcome_world (lock_tmp Sample.machine Sample.cache_file w0))
            Sample.cache_file = true) as Hcached
    by (vm_compute; reflexivity).
  split.
  - split; [exact Hnone|].
    exact (proj1 (archive_skips Sample.machine Sample.npm
                    (cacheDirectoryOf Sample.machine Sample.npm) Sample.cache_file ignore
                    Sample.fresh) Hnone).
  - split; [exact Hinst|]. split; [exact Hcached|].
    destruct (proj1 (proj2 (archive_skips Sample.machine Sample.npm
                       (cacheDirectoryOf Sample.machine Sample.npm) Sample.cache_file ignore
                       Sample.raced)) 3%nat _ Hinst Hlock Hcached) as [Hrun _].
    rewrite Hrun. vm_compute. reflexivity.
Defined.

Lemma archive_is_atomic_witness :
  ∃ w',
    archiveDependencies Sample.disk_full Sample.npm
      (cacheDirectoryOf Sample.disk_full Sample.npm) Sample.cache_file ignore
      Sample.installed_world
    = Done tt w'
    ∧ fs w' !! Sample.cache_file = None
    ∧ fs w' !! (Sample.cache_file +:+ "~") = Some (File (Bytes "partial")).
Proof.
  set (w0 := logged Sample.installed_world
               [LogInfo "[npm] archiving dependencies from /work/node_modules"]).
  assert (exists_at Sample.disk_full Sample.installed_world
            (getAbsolutePath Sample.disk_full (installDirectory Sample.npm)) = true) as Hinst
    by (vm_compute; reflexivity).
  assert (lock_tmp Sample.disk_full Sample.cache_file w0
          = Done 3%nat (outcome_world (lock_tmp Sample.disk_full Sample.cache_file w0)))
    as Hlock by (vm_compute; reflexivity).
  assert (exists_at Sample.disk_full
            (outcome_world (lock_tmp Sample.disk_full Sample.cache_file w0))
            Sample.cache_file = false) as Hfree
    by (vm_compute; reflexivity).
  destruct (archive_is_atomic Sample.disk_full Sample.npm
              (cacheDirectoryOf Sample.disk_full Sample.npm) Sample.cache_file ignore
              Sample.installed_world 3%nat _ Hinst Hlock Hfree)
    as (v & w' & Hrun & _ & Hfail).
  exists w'. split; [exact Hrun|].
  destruct Hfail as (_ & _ & _ & Hfinal & Htmp).
  split; [exact Hfinal|exact Htmp].
Defined.

(** * Beyond the claims: paths and cache keys *)
Module PathMore.
Import Path PathFacts.

Lemma resolve_rooted cwd args :
  resolve cwd args = "/" ∨ normal (resolve cwd args) = true.
Proof.
  rewrite resolve_eq. pose proof (resolve_segs_plain cwd args) as Hplain.
  destruct (resolve_segs cwd args) as [|a st] eqn:Hst; [by left|]. right.
  change ("/" +:+ join (a :: st)) with (String sep (join (a :: st))).
  cbn [normal]. rewrite Ascii.eqb_refl, split_join by done. cbn [andb].
  apply forallb_forall. intros x Hx.
  by apply (proj1 (List.Forall_forall _ _) Hplain).
Qed.

(** An absolute last argument decides alone. *)
Lemma resolve_last_absolute cwd cwd' args r :
  isAbsolute r = true → resolve cwd (args ++ [r]) = resolve cwd' [r].
Proof.
  intros Hr. destruct r as [|c r]; [done|].
  rewrite !resolve_eq. unfold resolve_segs.
  rewrite rev_app_distr. cbn [rev List.app resolve_head]. by rewrite Hr.
Qed.

Lemma resolve_pair_absolute cwd cwd' d r :
  isAbsolute r = true → resolve cwd [d; r] = resolve cwd' [r].
Proof. apply (resolve_last_absolute cwd cwd' [d]). Qed.

Lemma resolve_absolute_output cwd args : isAbsolute (resolve cwd args) = true.
Proof. by rewrite resolve_eq. Qed.

(** Two arguments, nothing to normalise. *)
Lemma resolve_layout2 cwd dir a :
  normal dir = true → plain a = true → resolve cwd [dir; a] = dir +:+ "/" +:+ a.
Proof.
  intros Hdir Ha.
  destruct dir as [|x r]; [done|]. cbn in Hdir.
  apply andb_prop in Hdir as [Hx Hr]. apply Ascii.eqb_eq in Hx as ->.
  apply forallb_Forall in Hr.
  destruct (plain_relative _ Ha) as [Ha1 Ha2].
  rewrite resolve_eq. unfold resolve_segs. cbn [rev List.app resolve_head].
  rewrite Ha1, Ha2.
  change (String.eqb (String sep r) "") with false.
  change (isAbsolute (String sep r)) with true. cbn match.
  rewrite split_app. cbn [split]. rewrite Ascii.eqb_refl.
  rewrite (split_no_sep a) by by apply plain_no_sep.
  change (normalize (("" :: split r) ++ [a]))
    with (fold_left norm_step (split r ++ [a]) []).
  rewrite fold_norm_plain.
  2:{ apply Forall_app. split; [done|]. by repeat constructor. }
  cbn [List.app]. pose proof (split_nonempty r) as Hne.
  rewrite join_snoc by done. rewrite join_split. by rewrite !sapp_cons.
Qed.

Lemma sapp_inj_r s a b : a +:+ s = b +:+ s → a = b.
Proof.
  revert b. induction a as [|x a IH]; intros [|y b] H.
  - done.
  - apply (f_equal String.length) in H. change ("" +:+ s) with s in H.
    rewrite sapp_cons in H. cbn [String.length] in H. rewrite slength_app in H. lia.
  - apply (f_equal String.length) in H. change ("" +:+ s) with s in H.
    rewrite sapp_cons in H. cbn [String.length] in H. rewrite slength_app in H. lia.
  - rewrite !sapp_cons in H. injection H as -> H. by rewrite (IH b H).
Qed.

Lemma normal_split dir :
  normal dir = true → ∃ r, dir = String sep r ∧ Forall (λ x, plain x = true) (split r).
Proof.
  destruct dir as [|x r]; [done|]. cbn. intros [Hx Hr]%andb_prop.
  apply Ascii.eqb_eq in Hx as ->. exists r. split; [done|]. by apply forallb_Forall.
Qed.

End PathMore.

(** X1. [getAbsolutePath] returns what its comment promises, a
    normalised absolute path: the root or an absolute path of plain
    segments.  Applying it twice changes nothing, the operating system
    reads the result as it stands, an absolute argument makes the
    working directory irrelevant, and a plain name under a normal
    working directory gives cwd/name. *)
Theorem getAbsolutePath_normalised (E : env) (relativePath : string) :
  (getAbsolutePath E relativePath = "/"
   ∨ Path.normal (getAbsolutePath E relativePath) = true)
  ∧ getAbsolutePath E (getAbsolutePath E relativePath) = getAbsolutePath E relativePath
  ∧ abs E (getAbsolutePath E relativePath) = getAbsolutePath E relativePath
  ∧ (Path.isAbsolute relativePath = true →
     ∀ E', getAbsolutePath E' relativePath = getAbsolutePath E relativePath)
  ∧ (Path.normal (cwd E) = true → Path.plain relativePath = true →
     getAbsolutePath E relativePath = cwd E +:+ "/" +:+ relativePath).
Proof.
  unfold getAbsolutePath. split; [apply PathMore.resolve_rooted|].
  split.
  { rewrite (PathMore.resolve_pair_absolute (cwd E) (cwd E))
      by apply PathMore.resolve_absolute_output.
    apply PathFacts.resolve_idem. }
  split; [apply PathFacts.resolve_idem|]. split.
  - intros Habs E'.
    rewrite (PathMore.resolve_pair_absolute (cwd E') (cwd E)) by done.
    by rewrite (PathMore.resolve_pair_absolute (cwd E) (cwd E)) by done.
  - intros Hcwd Hp. by apply PathMore.resolve_layout2.
Qed.

Lemma getAbsolutePath_normalised_witness :
  getAbsolutePath Sample.machine "node_modules" = "/work/node_modules"
  ∧ getAbsolutePath Sample.no_tool "/opt/./lib/../vendor"
    = getAbsolutePath Sample.machine "/opt/./lib/../vendor".
Proof.
  destruct (getAbsolutePath_normalised Sample.machine "node_modules")
    as (_ & _ & _ & _ & Hlayout).
  destruct (getAbsolutePath_normalised Sample.machine "/opt/./lib/../vendor")
    as (_ & _ & _ & Habs & _).
  split; [exact (Hlayout eq_refl eq_refl)|exact (Habs eq_refl Sample.no_tool)].
Defined.

(** X2. Cache keys do not collide: when the cache directories are
    absolute normal paths, the manager names and versions plain
    segments and the hashes free of slashes, two configs that resolve
    to the same cache path have the same cache directory, name, version
    and hash. *)
Theorem cache_path_injective (E : env) (c1 c2 : config) :
  Path.normal (cacheDirectory c1) = true → Path.normal (cacheDirectory c2) = true →
  Path.plain (cliName c1) = true → Path.plain (cliName c2) = true →
  Path.plain (getCliVersion c1 tt) = true → Path.plain (getCliVersion c2 tt) = true →
  Path.no_sep (getFileHash c1 (configPath c1)) = true →
  Path.no_sep (getFileHash c2 (configPath c2)) = true →
  cachePathOf E c1 = cachePathOf E c2 →
  cacheDirectory c1 = cacheDirectory c2
  ∧ cliName c1 = cliName c2
  ∧ getCliVersion c1 tt = getCliVersion c2 tt
  ∧ getFileHash c1 (configPath c1) = getFileHash c2 (configPath c2).
Proof.
  intros Hd1 Hd2 Ha1 Ha2 Hb1 Hb2 Hh1 Hh2.
  unfold cachePathOf, cacheDirectoryOf. rewrite !PathFacts.resolve_nested. cbn [List.app].
  rewrite !PathFacts.resolve_layout by (try done; by apply PathFacts.plain_archive_name).
  intros Heq. apply (f_equal Path.split) in Heq.
  rewrite !PathFacts.split_app in Heq.
  rewrite !(PathFacts.split_no_sep (cliName _)) in Heq by by apply PathFacts.plain_no_sep.
  rewrite !(PathFacts.split_no_sep (getCliVersion _ tt)) in Heq
    by by apply PathFacts.plain_no_sep.
  rewrite !(PathFacts.split_no_sep (_ +:+ ".tar.gz")) in Heq
    by (apply PathFacts.plain_no_sep; by apply PathFacts.plain_archive_name).
  rewrite !List.app_assoc in Heq.
  apply app_inj_tail in Heq as [Heq Hh].
  apply app_inj_tail in Heq as [Heq Hb].
  apply app_inj_tail in Heq as [Heq Ha].
  apply (f_equal Path.join) in Heq. rewrite !PathFacts.join_split in Heq.
  apply PathMore.sapp_inj_r in Hh. done.
Qed.

Lemma cache_path_injective_witness :
  cachePathOf Sample.machine Sample.npm = cachePathOf Sample.machine Sample.npm_refresh
  ∧ getFileHash Sample.npm (configPath Sample.npm)
    = getFileHash Sample.npm_refresh (configPath Sample.npm_refresh).
Proof.
  split; [reflexivity|].
  exact (proj2 (proj2 (proj2
    (cache_path_injective Sample.machine Sample.npm Sample.npm_refresh
       eq_refl eq_refl eq_refl eq_refl eq_refl eq_refl eq_refl eq_refl eq_refl)))).
Defined.

(** When a component holds a slash two different keys can share a
    file. *)
Example cache_path_collision :
  cachePathOf Sample.machine
    (Config "a/b" "" "" "" "" "/cache" false (fun _ => "h") (fun _ => "c"))
  = cachePathOf Sample.machine
      (Config "a" "" "" "" "" "/cache" false (fun _ => "h") (fun _ => "b/c")).
Proof. reflexivity. Qed.

(** * Beyond the claims: the orchestrator *)

Section Completion.
Variable E : env.
Variable self : config.

Lemma completes_bind {A} callback (m : M A) (k : A → M unit) w :
  runs not_invoke m w → (∀ a w', completes callback (k a) w') →
  completes callback (bind m k) w.
Proof.
  intros [(a & w' & Hm & H')|(e & w' & Hm & H')] Hk.
  - destruct (Hk a w') as [(args & w'' & Hb & Hc & H'')|(e & w'' & Hb & H'')]; [left|right].
    + exists args, w''. split; [unfold bind; by rewrite Hm|]. split; [done|].
      by eapply extends_trans.
    + exists e, w''. split; [unfold bind; by rewrite Hm|]. by eapply extends_trans.
  - right. exists e, w'. split; [unfold bind; by rewrite Hm|done].
Qed.

Lemma completes_invoke callback v w :
  v = VNull ∨ truthy v = true → completes callback (invoke callback [v]) w.
Proof.
  intros Hv. left. exists [v], w. split; [done|]. split; [by exists v|apply extends_refl].
Qed.

Lemma completes_reaches P callback (f : Callback → M unit) (cb : Callback) w :
  (∀ e, P e = true → not_invoke e = true) →
  reaches P f w → (∀ args w', completes callback (cb args) w') →
  completes callback (f cb) w.
Proof.
  intros HP [(args & w' & Hf & H')|(e & w' & Hf & H')] Hcb.
  - unfold completes. rewrite Hf.
    destruct (Hcb args w') as [(args' & w'' & Hb & Hc & H'')|(e & w'' & Hb & H'')];
      [left|right].
    + exists args', w''. split; [done|]. split; [done|].
      eapply extends_trans; [by eapply extends_weaken|done].
    + exists e, w''. split; [done|].
      eapply extends_trans; [by eapply extends_weaken|done].
  - right. exists e, w'. rewrite Hf. split; [done|]. by eapply extends_weaken.
Qed.

Lemma truthy_or_null v : (if truthy v then v else VNull) = VNull
                         ∨ truthy (if truthy v then v else VNull) = true.
Proof. destruct (truthy v) eqn:Hv; [by right|by left]. Qed.

Lemma completes_done {A} callback (m : M A) (k : A → M unit) w a w' :
  m w = Done a w' → extends not_invoke w w' → completes callback (k a) w' →
  completes callback (bind m k) w.
Proof.
  intros Hm H' [(args & w'' & Hb & Hc & H'')|(e & w'' & Hb & H'')]; [left|right].
  - exists args, w''. split; [unfold bind; by rewrite Hm|]. split; [done|].
    by eapply extends_trans.
  - exists e, w''. split; [unfold bind; by rewrite Hm|]. by eapply extends_trans.
Qed.

(** [installDependencies] returns [null] or its error string. *)
Lemma install_returns w :
  ∃ v w', installDependencies E self w = Done v w'
          ∧ (v = VNull ∨ ∃ s, v = VStr ("error running " +:+ s))
          ∧ extends not_invoke w w'.
Proof.
  unfold installDependencies, shell_exec, bind, cacheLogInfo, cacheLogError, logInfo, logError.
  cbv zeta. rewrite !emit_log. cbn [get_fs fs logged].
  destruct (exec E _ (fs w)) as [code m]. cbn.
  destruct (code =? 0); cbn; eexists _, _; (split; [reflexivity|]); split;
    first [by left | by right; eexists | eexists; split; [cbn; flatten; reflexivity|done]].
Qed.

Lemma load_completes callback w : completes callback (loadDependencies E self callback) w.
Proof.
  unfold loadDependencies, cacheLogInfo, cacheLogError, logInfo, logError. cbv zeta.
  apply completes_bind; [apply runs_existsSync|]. intros configExists w1.
  destruct configExists; cbn [negb].
  2:{ apply completes_bind; [by apply runs_emit|]. intros _ w2.
      apply completes_invoke. by left. }
  apply completes_bind; [by apply runs_emit|]. intros _ w2.
  apply completes_bind; [apply runs_ret|]. intros found w3.
  destruct found; cbn [negb].
  2:{ apply completes_bind; [by apply runs_emit|]. intros _ w4.
      apply completes_invoke. by right. }
  apply completes_bind; [by apply runs_emit|]. intros _ w4.
  apply completes_bind; [by apply runs_emit|]. intros _ w5.
  apply completes_bind.
  { destruct (negb (forceRefresh self)); [apply runs_existsSync|apply runs_ret]. }
  intros hit w6. destruct hit.
  - apply completes_bind; [by apply runs_emit|]. intros _ w7.
    apply (completes_reaches reader_event); [by intros []|apply extract_reaches|].
    intros args w8. apply completes_invoke, truthy_or_null.
  - destruct (install_returns w6) as (error & w7 & Hrun & Herror & Hext).
    apply (completes_done _ _ _ _ _ _ Hrun Hext).
    destruct Herror as [->|[s ->]]; cbn [negb].
    + apply (completes_reaches writer_event); [by intros []|apply archive_reaches|].
      intros args w8. apply completes_invoke, truthy_or_null.
    + apply completes_invoke. by right.
Qed.

End Completion.

(** X3. [loadDependencies] given a function calls it exactly once, as
    the last thing it does, with one argument that is [null] or a
    truthy error; or it is cut short by an exception of a library
    call, and then the function is not called at all. *)
Theorem callback_called_once (E : env) (self : config) (k : nat) (w : world) :
  (∃ v w',
     loadDependencies E self (VFun k) w = Done tt (logged w' [Invoke (VFun k) [v]])
     ∧ (v = VNull ∨ truthy v = true)
     ∧ extends not_invoke w w')
  ∨ (∃ e w',
       loadDependencies E self (VFun k) w = Thrown e w'
       ∧ extends not_invoke w w').
Proof.
  destruct (load_completes E self (VFun k) w)
    as [(args & w' & Hrun & (v & -> & Hv) & Hext)|(e & w' & Hrun & Hext)]; [left|right].
  - exists v, w'. by rewrite Hrun.
  - by exists e, w'.
Qed.

(** The two ways through [loadDependencies] past its checks. *)
Lemma load_miss_installed (E : env) (self : config) (callback : value) (w : world) :
  exists_at E w (configPath self) = true →
  which E (cliName self) = true →
  forceRefresh self = true ∨ exists_at E w (cachePathOf E self) = false →
  install_code E self w = 0 →
  loadDependencies E self callback w
  = archiveDependencies E self (cacheDirectoryOf E self) (cachePathOf E self)
      (λ args, invoke callback [if truthy (arg0 args) then arg0 args else VNull])
      (logged (after_install E self w)
         [LogInfo ("[" +:+ cliName self +:+ "] " +:+ "installed " +:+ cliName self
                   +:+ " dependencies, now archiving")]).
Proof.
  intros Hconfig Htool Hmiss. unfold exists_at in Hconfig.
  unfold install_code, after_install.
  destruct (exec E (trim (installCommand self +:+ " " +:+ installOptions self)) (fs w))
    as [code m] eqn:Hexec.
  cbn [fst snd]. intros ->.
  assert (bool_decide (is_Some (fs w !! abs E (cachePathOf E self)))
          && negb (forceRefresh self) = false) as Hhit.
  { destruct Hmiss as [->|Hc]; [by rewrite andb_false_r|].
    unfold exists_at in Hc. by rewrite Hc. }
  unfold loadDependencies, bind, existsSync, which_sync, ret, cacheLogInfo, logInfo.
  rewrite Hconfig. cbn -[archiveDependencies trim]. rewrite Htool.
  cbn -[archiveDependencies trim].
  destruct (forceRefresh self); cbn -[archiveDependencies trim] in Hhit |- *;
    rewrite ?andb_true_r in Hhit; rewrite ?Hhit;
    unfold installDependencies, bind, shell_exec, cacheLogInfo, cacheLogError,
      logInfo, logError;
    cbn -[archiveDependencies trim]; rewrite Hexec;
    cbn -[archiveDependencies trim]; unfold logged;
    cbn -[archiveDependencies trim]; by flatten.
Qed.


(** * Beyond the claims: the archive writer *)

Lemma keeps_refl t w : keeps t w w.
Proof. by intros p n _ H. Qed.

Lemma keeps_trans t w1 w2 w3 : keeps t w1 w2 → keeps t w2 w3 → keeps t w1 w3.
Proof. intros H1 H2 p n Hp H. by apply H2, H1. Qed.

Lemma keeps_same t w w' : fs w' = fs w → keeps t w w'.
Proof. intros H p n _. by rewrite H. Qed.

(** Creating, opening and locking the temporary file leaves every
    other entry alone, whether it ends well or not. *)
Lemma lock_tmp_keeps E cachePath w :
  keeps (abs E (cachePath +:+ "~")) w (outcome_world (lock_tmp E cachePath w)).
Proof.
  intros p n Hp Hn.
  unfold lock_tmp, ensureFileSync, openSync, flockSync, bind. cbv zeta.
  rewrite emit_log. cbn [get_fs fs logged].
  destruct (fs w !! abs E (cachePath +:+ "~")) as [[|d]|] eqn:Htmp.
  - cbn. rewrite Htmp. by cbn.
  - cbn. rewrite Htmp. cbn.
    destruct (flock_error E (next_fd w) LockEx); cbn; by rewrite lookup_insert_ne.
  - destruct (existsb _ _); [by cbn|]. cbn. rewrite lookup_insert_eq. cbn.
    destruct (flock_error E (next_fd w) LockEx); cbn;
      rewrite !lookup_insert_ne by done; by apply mkdirs_preserves.
Qed.

Lemma archive_thrown (E : env) (self : config) cacheDirectory' cachePath
      (callback : Callback) w e w1 :
  exists_at E w (getAbsolutePath E (installDirectory self)) = true →
  lock_tmp E cachePath
    (logged w [LogInfo ("[" +:+ cliName self +:+ "] " +:+ "archiving dependencies from "
                        +:+ getAbsolutePath E (installDirectory self))])
  = Thrown e w1 →
  archiveDependencies E self cacheDirectory' cachePath callback w = Thrown e w1.
Proof.
  intros Hinst Hlock. unfold exists_at in Hinst.
  unfold lock_tmp, bind in Hlock. cbv zeta in Hlock.
  unfold archiveDependencies, bind, existsSync at 1, cacheLogInfo at 1, logInfo at 1.
  cbv zeta. rewrite emit_log. cbn [fs logged]. rewrite Hinst. cbn [negb].
  destruct (ensureFileSync E (cachePath +:+ "~") _) as [[] w2|]; [|by injection Hlock as -> ->].
  destruct (openSync E (cachePath +:+ "~") FlagW w2) as [fd' w3|];
    [|by injection Hlock as -> ->].
  destruct (flockSync E fd' LockEx w3) as [[] w4|]; [done|by injection Hlock as -> ->].
Qed.

Lemma archive_without_directory (E : env) (self : config) cacheDirectory' cachePath
      (callback : Callback) w :
  exists_at E w (getAbsolutePath E (installDirectory self)) = false →
  archiveDependencies E self cacheDirectory' cachePath callback w
  = callback []
      (logged w [LogInfo ("[" +:+ cliName self +:+ "] " +:+ "archiving dependencies from "
                          +:+ getAbsolutePath E (installDirectory self));
                 LogInfo ("[" +:+ cliName self +:+ "] "
                          +:+ "skipping archive. Install directory does not exist.")]).
Proof.
  intros Hinst. unfold exists_at in Hinst.
  unfold archiveDependencies, bind, existsSync, cacheLogInfo, logInfo.
  cbv zeta. rewrite emit_log. cbn [fs logged]. rewrite Hinst. cbn [negb].
  rewrite emit_log. by rewrite logged_logged.
Qed.

(** Where the writer stands at its callback when it found the final
    path free, by what the surroundings did to compression, renaming
    and unlocking. *)
Lemma archive_outcome (E : env) (self : config) cacheDirectory' cachePath w fd w1 :
  let installedDirectory := getAbsolutePath E (installDirectory self) in
  let tmp := abs E (cachePath +:+ "~") in
  let final := abs E cachePath in
  let complete := File (Targz (pack (abs E installedDirectory) (fs w1))) in
  exists_at E w installedDirectory = true →
  lock_tmp E cachePath
    (logged w [LogInfo ("[" +:+ cliName self +:+ "] " +:+ "archiving dependencies from "
                        +:+ installedDirectory)])
  = Done fd w1 →
  exists_at E w1 cachePath = false →
  ∃ v w',
    (∀ callback, archiveDependencies E self cacheDirectory' cachePath callback w
                 = callback [v] w')
    ∧ open_files w' = open_files w1
    ∧ match compress_error E (abs E installedDirectory) tmp with
      | Some (msg, partial) =>
          fs w' = <[tmp := File partial]> (fs w1) ∧ locks w' = locks w1 ∧ truthy v = true
      | None =>
          match rename_error E tmp final with
          | Some msg =>
              fs w' = <[tmp := complete]> (fs w1) ∧ locks w' = locks w1 ∧ v = VError msg
          | None =>
              fs w' = <[final := complete]> (delete tmp (<[tmp := complete]> (fs w1)))
              ∧ match flock_error E fd LockUn with
                | Some msg => locks w' = locks w1 ∧ v = VError msg
                | None => locks w' = delete fd (locks w1) ∧ v = VUndefined
                end
          end
      end.
Proof.
  intros installedDirectory tmp final complete Hinst Hlock Hfree.
  destruct (compress_error E (abs E installedDirectory) tmp) as [[msg partial]|] eqn:Hc.
  { eexists _, _. split; [|split; [|split; [|split]]].
    - intros callback.
      rewrite (archive_after_lock E self _ _ callback w fd w1 Hinst Hlock), Hfree.
      fold installedDirectory.
      unfold series, compress, bind, cacheLogError, logError. rewrite !emit_log.
      cbn [get_fs fs logged]. fold tmp. rewrite Hc.
      cbn [arg0 nth message set_fs]. rewrite tar_error_truthy. cbn. reflexivity.
    - reflexivity.
    - reflexivity.
    - reflexivity.
    - apply tar_error_truthy. }
  destruct (rename_error E tmp final) as [msg|] eqn:Hr.
  { eexists _, _. split; [|split; [|split; [|split]]].
    - intros callback.
      rewrite (archive_after_lock E self _ _ callback w fd w1 Hinst Hlock), Hfree.
      fold installedDirectory.
      unfold series, compress, rename, bind, cacheLogInfo, logInfo. rewrite !emit_log.
      cbn [get_fs fs logged]. fold tmp final. rewrite Hc. cbn.
      rewrite lookup_insert_eq, Hr. cbn. reflexivity.
    - reflexivity.
    - reflexivity.
    - reflexivity.
    - reflexivity. }
  destruct (flock_error E fd LockUn) as [msg|] eqn:Hu.
  - eexists _, _. split; [|split; [|split; [|split]]].
    + intros callback.
      rewrite (archive_after_lock E self _ _ callback w fd w1 Hinst Hlock), Hfree.
      fold installedDirectory.
      unfold series, compress, rename, flock, bind, cacheLogInfo, logInfo. rewrite !emit_log.
      cbn [get_fs fs logged]. fold tmp final. rewrite Hc. cbn.
      rewrite lookup_insert_eq, Hr. cbn. rewrite Hu. cbn. reflexivity.
    + reflexivity.
    + reflexivity.
    + reflexivity.
    + reflexivity.
  - eexists _, _. split; [|split; [|split; [|split]]].
    + intros callback.
      rewrite (archive_after_lock E self _ _ callback w fd w1 Hinst Hlock), Hfree.
      fold installedDirectory.
      unfold series, compress, rename, flock, bind, cacheLogInfo, logInfo. rewrite !emit_log.
      cbn [get_fs fs logged]. fold tmp final. rewrite Hc. cbn.
      rewrite lookup_insert_eq, Hr. cbn. rewrite Hu. cbn. reflexivity.
    + reflexivity.
    + reflexivity.
    + reflexivity.
    + reflexivity.
Qed.

(** X5. Whatever happens to it, the archive writer leaves every entry
    of the file system other than cachePath~ as it found it: it never
    alters or removes the install directory, an existing cache entry
    or anything else.  This holds at its callback and when it
    throws. *)
Theorem writer_keeps_files (E : env) (self : config) (cacheDirectory' cachePath : string)
        (w : world) :
  ends (keeps (abs E (cachePath +:+ "~")))
       (archiveDependencies E self cacheDirectory' cachePath) w.
Proof.
  set (tmp := abs E (cachePath +:+ "~")).
  set (w0 := logged w [LogInfo ("[" +:+ cliName self +:+ "] "
                                +:+ "archiving dependencies from "
                                +:+ getAbsolutePath E (installDirectory self))]).
  destruct (exists_at E w (getAbsolutePath E (installDirectory self))) eqn:Hinst.
  2:{ left. eexists _, _. split.
      - intros cb. by apply archive_without_directory.
      - by apply keeps_same. }
  pose proof (lock_tmp_keeps E cachePath w0) as Hkeep. fold tmp in Hkeep.
  destruct (lock_tmp E cachePath w0) as [fd w1|e w1] eqn:Hlock; cbn in Hkeep.
  2:{ right. exists e, w1. split; [|done]. intros cb. by apply archive_thrown. }
  destruct (exists_at E w1 cachePath) eqn:Hcached.
  { left. eexists _, _. split.
    - intros cb. rewrite (archive_after_lock E self _ _ cb w fd w1 Hinst Hlock), Hcached.
      unfold cacheLogInfo, logInfo, bind. by rewrite emit_log.
    - done. }
  destruct (archive_outcome E self cacheDirectory' cachePath w fd w1 Hinst Hlock Hcached)
    as (v & w' & Hrun & _ & Hfs).
  left. exists [v], w'. split; [exact Hrun|].
  apply (keeps_trans _ _ w1); [done|].
  apply exists_at_false in Hcached.
  intros p n Hp Hn. fold tmp in Hfs.
  destruct (compress_error E _ tmp) as [[msg partial]|].
  { destruct Hfs as (-> & _). by rewrite lookup_insert_ne. }
  destruct (rename_error E tmp _) as [msg|].
  { destruct Hfs as (-> & _). by rewrite lookup_insert_ne. }
  destruct Hfs as (-> & _).
  assert (p ≠ abs E cachePath) as Hfinal by (intros ->; by rewrite Hcached in Hn).
  by rewrite lookup_insert_ne, lookup_delete_ne, lookup_insert_ne.
Qed.

(** X4. [forceRefresh] does not refresh an entry that is there: the
    install command runs, the writer then finds the file at the cache
    path and skips, and the operation calls back with [null] with the
    old entry in place and nothing compressed. *)
Theorem force_refresh_keeps_entry (E : env) (self : config) (callback : value)
        (w : world) (fd : nat) (w1 : world) (entry : node) :
  let installed :=
    logged (after_install E self w)
      [LogInfo ("[" +:+ cliName self +:+ "] " +:+ "installed " +:+ cliName self
                +:+ " dependencies, now archiving")] in
  exists_at E w (configPath self) = true →
  which E (cliName self) = true →
  forceRefresh self = true →
  install_code E self w = 0 →
  exists_at E installed (getAbsolutePath E (installDirectory self)) = true →
  fs installed !! abs E (cachePathOf E self) = Some entry →
  lock_tmp E (cachePathOf E self)
    (logged installed
       [LogInfo ("[" +:+ cliName self +:+ "] " +:+ "archiving dependencies from "
                 +:+ getAbsolutePath E (installDirectory self))])
  = Done fd w1 →
  loadDependencies E self callback w
  = invoke callback [VNull]
      (logged w1 [LogInfo ("[" +:+ cliName self +:+ "] "
                  +:+ "skipping archive because target cache file already exists.")])
  ∧ fs w1 !! abs E (cachePathOf E self) = Some entry
  ∧ extends not_compress w w1.
Proof.
  intros installed Hconfig Htool Hforce Hcode Hinst Hentry Hlock.
  pose proof (lock_tmp_keeps E (cachePathOf E self)
                (logged installed
                   [LogInfo ("[" +:+ cliName self +:+ "] "
                             +:+ "archiving dependencies from "
                             +:+ getAbsolutePath E (installDirectory self))])) as Hkeep.
  rewrite Hlock in Hkeep. cbn [outcome_world] in Hkeep.
  assert (fs w1 !! abs E (cachePathOf E self) = Some entry) as Hstill.
  { apply Hkeep; [|done]. intros Heq. by apply (abs_tilde_ne E (cachePathOf E self)). }
  assert (exists_at E w1 (cachePathOf E self) = true) as Hcached.
  { unfold exists_at. apply bool_decide_eq_true. by rewrite Hstill. }
  split; [|split; [done|]].
  - rewrite (load_miss_installed E self callback w Hconfig Htool (or_introl Hforce) Hcode).
    fold installed.
    rewrite (archive_after_lock E self _ _ _ installed fd w1 Hinst Hlock), Hcached.
    unfold cacheLogInfo, logInfo, bind. by rewrite emit_log.
  - apply (extends_trans _ w installed).
    { eexists. split; [cbn; rewrite <- List.app_assoc; reflexivity|done]. }
    apply (extends_trans _ installed
             (logged installed
                [LogInfo ("[" +:+ cliName self +:+ "] " +:+ "archiving dependencies from "
                          +:+ getAbsolutePath E (installDirectory self))])).
    { by apply extends_emit. }
    destruct (lock_tmp_runs E not_compress (cachePathOf E self)
                (logged installed
                   [LogInfo ("[" +:+ cliName self +:+ "] "
                             +:+ "archiving dependencies from "
                             +:+ getAbsolutePath E (installDirectory self))]))
      as [(a & w' & Hm & H')|(e & w' & Hm & H')]; [by intros [| | | | | | | | | |]| |];
      rewrite Hlock in Hm; by simplify_eq.
Qed.

Lemma lock_tmp_opens E cachePath w fd w1 :
  lock_tmp E cachePath w = Done fd w1 →
  open_files w1 !! fd = Some (abs E (cachePath +:+ "~")).
Proof.
  unfold lock_tmp, ensureFileSync, openSync, flockSync, bind. cbv zeta.
  rewrite emit_log. cbn [get_fs fs logged].
  destruct (fs w !! abs E (cachePath +:+ "~")) as [[|d]|] eqn:Htmp.
  - cbn. rewrite Htmp. by cbn.
  - cbn. rewrite Htmp. cbn.
    destruct (flock_error E (next_fd w) LockEx); cbn; [done|].
    intros [= <- <-]. cbn. apply lookup_insert_eq.
  - destruct (existsb _ _); [by cbn|]. cbn. rewrite lookup_insert_eq. cbn.
    destruct (flock_error E (next_fd w) LockEx); cbn; [done|].
    intros [= <- <-]. cbn. apply lookup_insert_eq.
Qed.

(** X9. After a run without error the writer has released its lock,
    the archive is at the final path and cachePath~ is gone; the
    descriptor it opened on cachePath~ is still open, for nothing
    closes it. *)
Theorem writer_releases_lock (E : env) (self : config) (cacheDirectory' cachePath : string)
        (w : world) (fd : nat) (w1 : world) :
  let installedDirectory := getAbsolutePath E (installDirectory self) in
  let tmp := abs E (cachePath +:+ "~") in
  exists_at E w installedDirectory = true →
  lock_tmp E cachePath
    (logged w [LogInfo ("[" +:+ cliName self +:+ "] " +:+ "archiving dependencies from "
                        +:+ installedDirectory)])
  = Done fd w1 →
  exists_at E w1 cachePath = false →
  compress_error E (abs E installedDirectory) tmp = None →
  rename_error E tmp (abs E cachePath) = None →
  flock_error E fd LockUn = None →
  ∃ w',
    (∀ callback, archiveDependencies E self cacheDirectory' cachePath callback w
                 = callback [VUndefined] w')
    ∧ locks w' !! fd = None
    ∧ open_files w' !! fd = Some tmp
    ∧ fs w' !! tmp = None
    ∧ fs w' !! abs E cachePath
      = Some (File (Targz (pack (abs E installedDirectory) (fs w1)))).
Proof.
  intros installedDirectory tmp Hinst Hlock Hfree Hc Hr Hu.
  destruct (archive_outcome E self cacheDirectory' cachePath w fd w1 Hinst Hlock Hfree)
    as (v & w' & Hrun & Hopen & Hout).
  fold installedDirectory tmp in Hout. rewrite Hc, Hr, Hu in Hout.
  destruct Hout as (Hfs & Hlocks & ->).
  exists w'. split; [exact Hrun|]. split; [|split; [|split]].
  - rewrite Hlocks. apply lookup_delete_eq.
  - rewrite Hopen. by apply lock_tmp_opens in Hlock.
  - rewrite Hfs. rewrite lookup_insert_ne by apply not_eq_sym, abs_tilde_ne.
    apply lookup_delete_eq.
  - rewrite Hfs. apply lookup_insert_eq.
Qed.

(** * Beyond the claims: the archive reader *)

(** X10. After an extraction without error the reader has released its
    shared lock; the descriptor it opened on the cache file is still
    open. *)
Theorem reader_releases_lock (E : env) (self : config) (cachePath : string) (w : world)
        entries :
  cleared (getAbsolutePath E (installDirectory self)) (fs w) !! abs E cachePath
  = Some (File (Targz entries)) →
  flock_error E (next_fd w) LockSh = None →
  decompress_error E (abs E cachePath) = None →
  flock_error E (next_fd w) LockUn = None →
  ∃ w',
    (∀ callback, extractDependencies E self cachePath callback w
                 = callback [VUndefined] w')
    ∧ locks w' !! next_fd w = None
    ∧ open_files w' !! next_fd w = Some (abs E cachePath).
Proof.
  intros Hcache Hsh Hde Hun.
  destruct (extract_success E self cachePath w (Targz entries) Hcache eq_refl Hsh Hde Hun)
    as (w' & Hrun & _ & Hlocks & Hopen & _).
  exists w'. split; [exact Hrun|]. split.
  - rewrite Hlocks. apply lookup_delete_eq.
  - rewrite Hopen. apply lookup_insert_eq.
Qed.

(** X6. A cache path inside the install directory does not survive a
    hit: the clearing removes the cache file with the directory, the
    opening then throws, and the callback is never reached. *)
Theorem extract_removes_nested_cache (E : env) (self : config) (cachePath : string)
        (callback : Callback) (w : world) :
  under (getAbsolutePath E (installDirectory self)) (abs E cachePath) = true →
  ∃ w',
    extractDependencies E self cachePath callback w
    = Thrown (VError ("ENOENT: no such file or directory, open " +:+ abs E cachePath)) w'
    ∧ fs w' = cleared (getAbsolutePath E (installDirectory self)) (fs w)
    ∧ fs w' !! abs E cachePath = None
    ∧ (∀ p, under (getAbsolutePath E (installDirectory self)) p = true → fs w' !! p = None).
Proof.
  intros Hunder. eexists. split; [|split; [|split]].
  - unfold extractDependencies, removeSync, openSync, bind, cacheLogInfo, logInfo.
    cbv zeta. rewrite !emit_log. cbn [get_fs set_fs fs logged].
    rewrite abs_getAbsolutePath.
    cbn -[abs cleared]. rewrite cleared_lookup by done. cbn. reflexivity.
  - reflexivity.
  - by apply cleared_lookup.
  - intros p Hp. by apply cleared_lookup.
Qed.

(** * Beyond the claims: archive and extraction together *)

(** X7. Round trip, the reader's half: when the cache entry is the
    archive of the install directory as packed from a tidy file system
    [m0], an extraction without error leaves under the install
    directory the files [m0] had there, each with its content, and the
    directories that held a file somewhere below them, whatever the
    directory held before.  Nothing else is there: a directory of [m0]
    without a file below it does not come back. *)
Theorem extraction_restores_what_was_archived (E : env) (self : config)
        (cachePath : string) (w : world) (m0 : gmap string node) :
  let directory := getAbsolutePath E (installDirectory self) in
  Path.plain (installDirectory self) = true →
  tidy E directory m0 →
  cleared directory (fs w) !! abs E cachePath
  = Some (File (Targz (pack (abs E directory) m0))) →
  flock_error E (next_fd w) LockSh = None →
  decompress_error E (abs E cachePath) = None →
  flock_error E (next_fd w) LockUn = None →
  ∃ w',
    (∀ callback, extractDependencies E self cachePath callback w
                 = callback [VUndefined] w')
    ∧ (∀ p, under directory p = true → fs w' !! p = survives directory m0 p)
    ∧ (∀ p contents, under directory p = true →
         (fs w' !! p = Some (File contents) ↔ m0 !! p = Some (File contents)))
    ∧ (∀ p, under directory p = true → fs w' !! p = Some Dir →
         m0 !! p = Some Dir
         ∧ ∃ k contents, m0 !! k = Some (File contents) ∧ p ∈ ancestors k).
Proof.
  intros directory Hdir Htidy Hcache Hsh Hde Hun.
  destruct (extract_success E self cachePath w _ Hcache eq_refl Hsh Hde Hun)
    as (w' & Hrun & Hfs & _).
  assert (∀ p, under directory p = true → fs w' !! p = survives directory m0 p) as Hsame.
  { intros p Hp. rewrite Hfs. cbn [handed_on].
    apply (unpacked_pack E (installDirectory self) m0); try done.
    intros q Hq. by apply cleared_lookup. }
  exists w'. split; [exact Hrun|]. split; [exact Hsame|]. split.
  - intros p contents Hp. rewrite (Hsame p Hp). unfold survives.
    destruct (m0 !! p) as [[|c]|]; [|done..].
    by destruct (holds_file directory m0 p).
  - intros p Hp. rewrite (Hsame p Hp). unfold survives.
    destruct (m0 !! p) as [[|c]|]; [|done..].
    destruct (holds_file directory m0 p) eqn:Hholds; [|done]. intros _. split; [done|].
    apply holds_file_true in Hholds as (k & c & Hk & _ & Hanc). by exists k, c.
Qed.


(** * Beyond the claims: the registry of managers *)
Module RegistryFacts.
Import Registry.

Lemma prefix_refl_app p x : String.prefix p (p +:+ x) = true.
Proof.
  induction p as [|c p IH]; [by destruct x|].
  rewrite PathFacts.sapp_cons. cbn. by destruct (ascii_dec c c).
Qed.

Lemma capture_sound s name :
  capture s = Some name →
  name ≠ "" ∧ no_space name = true ∧ ∃ rest, s = name +:+ "Config.js" +:+ rest.
Proof.
  revert name. induction s as [|c r IH]; intros name; [done|]. cbn.
  destruct (Ascii.is_space c) eqn:Hc; [done|].
  destruct (capture r) as [inner|] eqn:Hr.
  - intros [= <-]. destruct (IH inner eq_refl) as (_ & Hns & rest & ->).
    split; [done|]. split; [cbn; by rewrite Hc|]. by exists rest.
  - destruct (String.prefix "Config.js" r) eqn:Hp; [|done]. intros [= <-].
    split; [done|]. split; [cbn; by rewrite Hc|].
    apply RoundTrip.prefix_app in Hp as [rest ->]. by exists rest.
Qed.

Lemma capture_exact name rest :
  name ≠ "" → no_space name = true → capture ("Config.js" +:+ rest) = None →
  capture (name +:+ "Config.js" +:+ rest) = Some name.
Proof.
  intros Hne Hns Hrest. induction name as [|c name IH]; [done|].
  cbn in Hns. apply andb_prop in Hns as [Hc Hns]. apply negb_true_iff in Hc.
  rewrite PathFacts.sapp_cons. cbn [capture]. rewrite Hc.
  destruct name as [|c' name'].
  - change ("" +:+ "Config.js" +:+ rest) with ("Config.js" +:+ rest).
    by rewrite Hrest, prefix_refl_app.
  - by rewrite IH.
Qed.

Lemma lookup_fold dirname files (acc : gmap string string) name :
  name ≠ "__proto__" →
  fold_left (addAvailableManager dirname) files acc !! name
  = match last_file name files with
    | Some file => Some (join2 dirname file)
    | None => acc !! name
    end.
Proof.
  intros Hname. revert acc. induction files as [|file files IH]; intros acc; [done|].
  cbn [fold_left]. rewrite IH. unfold last_file. rewrite filter_cons.
  unfold addAvailableManager.
  destruct (decide (exec file = Some name)) as [Hex|Hex].
  - rewrite Hex. apply String.eqb_neq in Hname. rewrite Hname.
    destruct (filter _ files) as [|g gs] eqn:Hf; [cbn; by rewrite lookup_insert_eq|].
    change (last (file :: g :: gs)) with (last (g :: gs)).
    by destruct (last (g :: gs)) eqn:Hl; [|by apply last_None in Hl].
  - destruct (last (filter _ files)); [done|].
    destruct (exec file) as [other|]; [|done].
    destruct (String.eqb other "__proto__"); [done|].
    rewrite lookup_insert_ne; [done|]. intros ->. done.
Qed.

End RegistryFacts.

(** X11. What [getAvailableManagers] returns for a name other than
    [__proto__]: the path, in the module's directory, of the last file
    of the listing whose name gives that key, and nothing when no file
    does.  The listing is read once: later calls return the same
    object whatever the directory holds by then. *)
Theorem managers_lookup (dirname : string) (files files' : list string) (name : string) :
  name ≠ "__proto__" →
  (Registry.getAvailableManagers dirname files None).1 !! name
  = join2 dirname <$> Registry.last_file name files
  ∧ Registry.getAvailableManagers dirname files'
      (Registry.getAvailableManagers dirname files None).2
    = Registry.getAvailableManagers dirname files None.
Proof.
  intros Hname. split; [|done]. cbn.
  rewrite RegistryFacts.lookup_fold by done.
  by destruct (Registry.last_file name files).
Qed.

(** X12. The pattern is not anchored.  A key it gives is never empty,
    holds no white space and is followed by [Config.js] somewhere in
    the file name; and a file name made of a word, [Config.js] and any
    text in which the pattern finds no further match gives that word:
    npmConfig.js gives npm, and so do npmConfig.json and
    npmConfig.js~. *)
Theorem manager_name_of_file (file name : string) :
  (Registry.exec file = Some name →
   name ≠ "" ∧ Registry.no_space name = true
   ∧ ∃ before after, file = before +:+ name +:+ "Config.js" +:+ after)
  ∧ (∀ after,
       name ≠ "" → Registry.no_space name = true →
       Registry.capture ("Config.js" +:+ after) = None →
       Registry.exec (name +:+ "Config.js" +:+ after) = Some name).
Proof.
  split.
  - revert name. induction file as [|c r IH]; intros name; [done|].
    cbn [Registry.exec].
    destruct (Registry.capture (String c r)) as [found|] eqn:Hcap.
    + intros [= <-]. destruct (RegistryFacts.capture_sound _ _ Hcap) as (H1 & H2 & rest & ->).
      split; [done|]. split; [done|]. by exists "", rest.
    + intros Hex. destruct (IH name Hex) as (H1 & H2 & before & after & ->).
      split; [done|]. split; [done|]. by exists (String c before), after.
  - intros after Hne Hns Hafter.
    pose proof (RegistryFacts.capture_exact name after Hne Hns Hafter) as Hcap.
    destruct name as [|c name]; [done|].
    rewrite PathFacts.sapp_cons in *. cbn [Registry.exec]. by rewrite Hcap.
Qed.

Lemma manager_name_of_file_witness :
  Registry.exec "npmConfig.json" = Some "npm"
  ∧ Registry.exec "npmConfig.js~" = Some "npm".
Proof.
  split.
  - exact (proj2 (manager_name_of_file "" "npm") "on" ltac:(discriminate) eq_refl eq_refl).
  - exact (proj2 (manager_name_of_file "" "npm") "~" ltac:(discriminate) eq_refl eq_refl).
Defined.

Example exec_examples :
  Registry.exec "npmConfig.js" = Some "npm"
  ∧ Registry.exec "baseCacheDependencyManager.js" = None
  ∧ Registry.exec "Config.js" = None
  ∧ Registry.exec "my npmConfig.js" = Some "npm"
  ∧ Registry.exec "aConfig.jsConfig.js" = Some "aConfig.js".
Proof. repeat split. Qed.

(** * Beyond the claims: the command line *)

Section HandlerFacts.
Variable E : env.
Variable require : string -> config.
Variable inherited : list string.

Lemma forEach_selected optsCacheDirectory names loadTasks w :
  (∀ name, name ∈ names → Cli.own Cli.availableManagers name = None →
           existsb (String.eqb name) inherited = false) →
  Cli.forEach E require inherited optsCacheDirectory names loadTasks w
  = Done (loadTasks
          ++ map (λ path, loadTask E (require path) optsCacheDirectory)
               (omap (Cli.own Cli.availableManagers) names))
         (logged w (map (λ name, LogInfo ("installing " +:+ name +:+ " dependencies"))
                        (filter (λ name, is_Some (Cli.own Cli.availableManagers name))
                                names))).
Proof.
  revert loadTasks w. induction names as [|name names IH]; intros loadTasks w Hnames.
  { cbn. unfold ret, logged. rewrite !List.app_nil_r. by destruct w. }
  cbn [Cli.forEach]. unfold bind, Cli.pushLoadTask. rewrite filter_cons. cbn [omap].
  destruct (Cli.own Cli.availableManagers name) as [path|] eqn:Hown.
  - unfold logInfo, bind. rewrite emit_log. cbn [ret].
    rewrite IH by (intros n Hn; apply Hnames; by apply list_elem_of_further).
    rewrite decide_True by eauto. cbn [map].
    rewrite logged_logged. cbn [omap list_omap]. rewrite Hown. cbn [map List.app].
    by rewrite <- List.app_assoc.
  - rewrite (Hnames name (list_elem_of_here _ _) Hown). cbn [ret].
    rewrite IH by (intros n Hn; apply Hnames; by apply list_elem_of_further).
    cbn [omap list_omap]. rewrite Hown.
    rewrite decide_False; [done|]. by intros [? ?].
Qed.

End HandlerFacts.

(** X13. The managers the command line loads.  With the command word
    alone the tasks are those of npm, bower and composer, in this
    order; otherwise there is one task for every word that names one
    of the three, in the order and as often as written, one log line
    goes with each, and any other word is passed over in silence (as
    long as it is not a property every object inherits). *)
Theorem load_tasks_of_command_line (E : env) (require : string -> config)
        (inherited : list string) (positional : list string)
        (optsCacheDirectory : string) (w : world) :
  (∀ name, name ∈ Cli.specifiedManagers positional →
           Cli.own Cli.availableManagers name = None →
           existsb (String.eqb name) inherited = false) →
  Cli.loadTasksOf E require inherited positional optsCacheDirectory w
  = Done (map (λ path, loadTask E (require path) optsCacheDirectory)
              (omap (Cli.own Cli.availableManagers) (Cli.specifiedManagers positional)))
         (logged w (map (λ name, LogInfo ("installing " +:+ name +:+ " dependencies"))
                        (filter (λ name, is_Some (Cli.own Cli.availableManagers name))
                                (Cli.specifiedManagers positional))))
  ∧ (length positional = 1%nat →
     omap (Cli.own Cli.availableManagers) (Cli.specifiedManagers positional)
     = ["./cacheDependencyManagers/npmConfig.js";
        "./cacheDependencyManagers/bowerConfig.js";
        "./cacheDependencyManagers/composerConfig.js"]).
Proof.
  intros Hnames. split.
  - unfold Cli.loadTasksOf. by rewrite forEach_selected.
  - intros Hlen. unfold Cli.specifiedManagers. by rewrite Hlen.
Qed.

Lemma forEach_app (E : env) (require : string -> config) (inherited : list string)
      optsCacheDirectory l1 l2 loadTasks w :
  Cli.forEach E require inherited optsCacheDirectory (l1 ++ l2) loadTasks w
  = bind (Cli.forEach E require inherited optsCacheDirectory l1 loadTasks)
         (Cli.forEach E require inherited optsCacheDirectory l2) w.
Proof.
  revert loadTasks w. induction l1 as [|name l1 IH]; intros loadTasks w; [done|].
  cbn [List.app Cli.forEach]. unfold bind at 1 3.
  destruct (Cli.pushLoadTask _ _ _ _ _ _ w) as [tasks w'|e w'] eqn:Hpush.
  - rewrite IH. unfold bind at 2. by rewrite Hpush.
  - unfold bind. by rewrite Hpush.
Qed.

(** The second half of the handler stops at a word that names an
    inherited property. *)
Lemma loadTasksOf_throws (E : env) (require : string -> config)
      (inherited : list string) (positional : list string)
      (optsCacheDirectory : string) (w : world) (before after : list string)
      (name : string) :
  Cli.specifiedManagers positional = before ++ name :: after →
  (∀ n, n ∈ before → Cli.own Cli.availableManagers n = None →
        existsb (String.eqb n) inherited = false) →
  Cli.own Cli.availableManagers name = None →
  existsb (String.eqb name) inherited = true →
  ∃ w',
    Cli.loadTasksOf E require inherited positional optsCacheDirectory w
    = Thrown (VError "path must be a string") w'
    ∧ last (trace w') = Some (LogInfo ("installing " +:+ name +:+ " dependencies"))
    ∧ fs w' = fs w.
Proof.
  intros Hnames Hbefore Hown Hin.
  unfold Cli.loadTasksOf. rewrite Hnames, forEach_app. unfold bind at 1.
  rewrite forEach_selected by done. cbn [Cli.forEach]. unfold bind, Cli.pushLoadTask.
  rewrite Hown, Hin. unfold logInfo, bind. rewrite emit_log.
  eexists. split; [reflexivity|]. split; [|done]. cbn. by rewrite last_snoc.
Qed.

(** The first half of the handler: a line in the log, and the cache
    directory made, with the directories above it, when it is not
    there.  Nothing that was there is touched. *)
Lemma handler_bootstrap (E : env) (require : string -> config)
      (inherited : list string) (positional : list string)
      (optsCacheDirectory : string) (w : world) :
  exists_at E w optsCacheDirectory = true
  ∨ existsb (is_file (fs w)) (ancestors (abs E optsCacheDirectory)) = false →
  ∃ w0,
    Cli.installDependencies E require inherited positional optsCacheDirectory w
    = Cli.loadTasksOf E require inherited positional optsCacheDirectory w0
    ∧ trace w0
      = trace w
        ++ LogInfo ("using " +:+ optsCacheDirectory +:+ " as cache directory")
           :: (if exists_at E w optsCacheDirectory then []
               else [LogInfo "creating cache directory"])
    ∧ is_Some (fs w0 !! abs E optsCacheDirectory)
    ∧ (∀ p n, fs w !! p = Some n → fs w0 !! p = Some n)
    ∧ (∀ p n, fs w0 !! p = Some n →
         fs w !! p = Some n
         ∨ (n = Dir ∧ (p = abs E optsCacheDirectory
                       ∨ p ∈ ancestors (abs E optsCacheDirectory)))).
Proof.
  intros Hfree.
  unfold Cli.installDependencies, existsSync, logInfo, bind. rewrite emit_log.
  cbn [fs logged]. fold (exists_at E w optsCacheDirectory).
  destruct (exists_at E w optsCacheDirectory) eqn:Hthere.
  - cbn [negb ret]. eexists. split; [reflexivity|]. cbn [trace fs logged].
    split; [done|]. split; [by apply exists_at_true|]. split; [done|]. intros p n Hp. by left.
  - destruct Hfree as [|Hfree]; [done|].
    apply exists_at_false in Hthere.
    cbn [negb]. unfold shell_mkdir_p, bind, get_fs. cbn [fs logged]. rewrite Hfree.
    cbn [set_fs]. rewrite emit_log.
    eexists. split; [reflexivity|]. cbn [trace fs logged].
    split; [by rewrite <- List.app_assoc|]. split; [|split].
    + rewrite mkdirs_spec, Hthere. rewrite bool_decide_eq_true_2; [done|].
      apply elem_of_app. right. apply list_elem_of_here.
    + intros p n Hp. by apply mkdirs_preserves.
    + intros p n. rewrite mkdirs_spec. destruct (fs w !! p); [by left|].
      destruct (decide (p ∈ ancestors (abs E optsCacheDirectory) ++ [abs E optsCacheDirectory]))
        as [Hin|Hout].
      * rewrite bool_decide_eq_true_2 by done. intros [= <-]. right. split; [done|].
        apply elem_of_app in Hin as [Hin|Hin]; [by right|].
        left. by apply list_elem_of_singleton in Hin.
      * by rewrite bool_decide_eq_false_2.
Qed.

(** X14. [in] also finds what every object inherits.  A word on the
    command line that is no manager but the name of such a property
    (constructor, toString, ...) is not passed over: its line is
    logged, [require] is given something that is no string and throws,
    and no task list comes out, so nothing is loaded at all.  By then
    the handler has made the cache directory if it was missing, and
    that is all it has done to the file system: what was there is
    still there, and what is new is that directory and the directories
    above it. *)
Theorem inherited_name_throws (E : env) (require : string -> config)
        (inherited : list string) (positional : list string)
        (optsCacheDirectory : string) (w : world) (before after : list string)
        (name : string) :
  optsCacheDirectory ≠ "" →
  exists_at E w optsCacheDirectory = true
  ∨ existsb (is_file (fs w)) (ancestors (abs E optsCacheDirectory)) = false →
  Cli.specifiedManagers positional = before ++ name :: after →
  (∀ n, n ∈ before → Cli.own Cli.availableManagers n = None →
        existsb (String.eqb n) inherited = false) →
  Cli.own Cli.availableManagers name = None →
  existsb (String.eqb name) inherited = true →
  ∃ w',
    Cli.installDependencies E require inherited positional optsCacheDirectory w
    = Thrown (VError "path must be a string") w'
    ∧ last (trace w') = Some (LogInfo ("installing " +:+ name +:+ " dependencies"))
    ∧ is_Some (fs w' !! abs E optsCacheDirectory)
    ∧ (∀ p n, fs w !! p = Some n → fs w' !! p = Some n)
    ∧ (∀ p n, fs w' !! p = Some n →
         fs w !! p = Some n
         ∨ (n = Dir ∧ (p = abs E optsCacheDirectory
                       ∨ p ∈ ancestors (abs E optsCacheDirectory)))).
Proof.
  intros _ Hfree Hnames Hbefore Hown Hin.
  destruct (handler_bootstrap E require inherited positional optsCacheDirectory w Hfree)
    as (w0 & -> & _ & Hdir & Hkept & Hnew).
  destruct (loadTasksOf_throws E require inherited positional optsCacheDirectory w0
              before after name Hnames Hbefore Hown Hin) as (w' & Hrun & Hlast & Hfs).
  exists w'. rewrite Hfs. by repeat split.
Qed.

(** X16. The handler of [install] when every word on the command line
    is a manager or no property at all, and nothing but directories
    stands where the cache directory has to go.  It logs the cache
    directory, makes it with the directories above it when it is
    missing, logging that too, and then collects one task per manager
    named.  It touches nothing that was there. *)
Theorem handler_makes_cache_directory (E : env) (require : string -> config)
        (inherited : list string) (positional : list string)
        (optsCacheDirectory : string) (w : world) :
  optsCacheDirectory ≠ "" →
  exists_at E w optsCacheDirectory = true
  ∨ existsb (is_file (fs w)) (ancestors (abs E optsCacheDirectory)) = false →
  (∀ name, name ∈ Cli.specifiedManagers positional →
           Cli.own Cli.availableManagers name = None →
           existsb (String.eqb name) inherited = false) →
  ∃ w',
    Cli.installDependencies E require inherited positional optsCacheDirectory w
    = Done (map (λ path, loadTask E (require path) optsCacheDirectory)
                (omap (Cli.own Cli.availableManagers) (Cli.specifiedManagers positional)))
           w'
    ∧ trace w'
      = trace w
        ++ LogInfo ("using " +:+ optsCacheDirectory +:+ " as cache directory")
           :: (if exists_at E w optsCacheDirectory then []
               else [LogInfo "creating cache directory"])
        ++ map (λ name, LogInfo ("installing " +:+ name +:+ " dependencies"))
               (filter (λ name, is_Some (Cli.own Cli.availableManagers name))
                       (Cli.specifiedManagers positional))
    ∧ is_Some (fs w' !! abs E optsCacheDirectory)
    ∧ (∀ p n, fs w !! p = Some n → fs w' !! p = Some n)
    ∧ (∀ p n, fs w' !! p = Some n →
         fs w !! p = Some n
         ∨ (n = Dir ∧ (p = abs E optsCacheDirectory
                       ∨ p ∈ ancestors (abs E optsCacheDirectory)))).
Proof.
  intros _ Hfree Hnames.
  destruct (handler_bootstrap E require inherited positional optsCacheDirectory w Hfree)
    as (w0 & -> & Htrace & Hdir & Hkept & Hnew).
  unfold Cli.loadTasksOf. rewrite forEach_selected by done.
  eexists. split; [reflexivity|]. cbn [trace fs logged]. rewrite Htrace.
  split; [|done]. rewrite <- List.app_assoc. reflexivity.
Qed.

(** X15. The default cache directory.  The first of HOME, HOMEPATH and
    USERPROFILE that is set and not empty decides, an empty variable
    counting as unset; the result is an absolute normalised path; and
    when the deciding variable holds an absolute normal path the
    default is that path followed by /.package_cache, whatever the
    working directory. *)
Theorem default_cache_directory (cwd : string) (HOME HOMEPATH USERPROFILE : option string) :
  Cli.defaultCacheDirectory cwd (Some "") HOMEPATH USERPROFILE
  = Cli.defaultCacheDirectory cwd None HOMEPATH USERPROFILE
  ∧ Cli.defaultCacheDirectory cwd HOME (Some "") USERPROFILE
    = Cli.defaultCacheDirectory cwd HOME None USERPROFILE
  ∧ (∀ directory,
       Cli.defaultCacheDirectory cwd HOME HOMEPATH USERPROFILE = Some directory →
       directory = "/" ∨ Path.normal directory = true)
  ∧ (∀ home,
       Path.normal home = true →
       (HOME = Some home
        ∨ (Cli.or_else HOME None = None ∧ HOMEPATH = Some home)
        ∨ (Cli.or_else HOME None = None ∧ Cli.or_else HOMEPATH None = None
           ∧ USERPROFILE = Some home)) →
       Cli.defaultCacheDirectory cwd HOME HOMEPATH USERPROFILE
       = Some (home +:+ "/.package_cache")).
Proof.
  split; [done|]. split.
  { unfold Cli.defaultCacheDirectory, Cli.or_else. by destruct HOME as [[|c s]|]. }
  split.
  { intros directory. unfold Cli.defaultCacheDirectory.
    destruct (Cli.or_else _ USERPROFILE); [|done]. intros [= <-].
    apply PathMore.resolve_rooted. }
  intros home Hhome Hset.
  assert (String.eqb home "" = false) as Hne by by destruct home.
  unfold Cli.defaultCacheDirectory.
  assert (Cli.or_else (Cli.or_else HOME HOMEPATH) USERPROFILE = Some home) as ->.
  { unfold Cli.or_else in *.
    destruct Hset as [->|[[H1 ->]|(H1 & H2 & ->)]].
    - by rewrite Hne, Hne.
    - destruct HOME as [h|]; [destruct (String.eqb h ""); [|done]|]; by rewrite Hne.
    - destruct HOME as [h|]; [destruct (String.eqb h ""); [|done]|];
        (destruct HOMEPATH as [p|]; [destruct (String.eqb p "") eqn:Hp; [|done]|]);
        rewrite ?Hp; done. }
  by rewrite (PathMore.resolve_layout2 cwd home ".package_cache").
Qed.

(** * Instances of the statements beyond the claims *)

Lemma tidyb_sound (E : env) (d : string) (m : gmap string node) :
  tidyb E d m = true → tidy E d m.
Proof.
  unfold tidyb, tidy. intros H k n Hk Hu.
  rewrite forallb_forall in H.
  apply elem_of_map_to_list, list_elem_of_In in Hk.
  specialize (H _ Hk). cbn in H. rewrite Hu in H. cbn in H.
  apply andb_prop in H as [H1 H2]. apply String.eqb_eq in H1. split; [done|].
  intros a Ha Hua. rewrite forallb_forall in H2.
  specialize (H2 a (proj1 (list_elem_of_In _ _) Ha)). rewrite Hua in H2. cbn in H2.
  by destruct (m !! a) as [[|]|].
Qed.

Lemma force_refresh_keeps_entry_witness :
  ∃ w1,
    loadDependencies Sample.machine Sample.npm_refresh (VFun 0) Sample.raced
    = invoke (VFun 0) [VNull]
        (logged w1 [LogInfo "[npm] skipping archive because target cache file already exists."])
    ∧ fs w1 !! Sample.cache_file = Some (File Sample.archive).
Proof.
  set (w0 := logged
               (logged (after_install Sample.machine Sample.npm_refresh Sample.raced)
                  [LogInfo "[npm] installed npm dependencies, now archiving"])
               [LogInfo "[npm] archiving dependencies from /work/node_modules"]).
  assert (exists_at Sample.machine Sample.raced (configPath Sample.npm_refresh) = true)
    as Hconfig by (vm_compute; reflexivity).
  assert (which Sample.machine (cliName Sample.npm_refresh) = true) as Hwhich
    by reflexivity.
  assert (forceRefresh Sample.npm_refresh = true) as Hforce by reflexivity.
  assert (install_code Sample.machine Sample.npm_refresh Sample.raced = 0) as Hcode
    by reflexivity.
  assert (exists_at Sample.machine
            (logged (after_install Sample.machine Sample.npm_refresh Sample.raced)
               [LogInfo "[npm] installed npm dependencies, now archiving"])
            (getAbsolutePath Sample.machine (installDirectory Sample.npm_refresh)) = true)
    as Hinst by (vm_compute; reflexivity).
  assert (fs (logged (after_install Sample.machine Sample.npm_refresh Sample.raced)
                [LogInfo "[npm] installed npm dependencies, now archiving"])
          !! abs Sample.machine (cachePathOf Sample.machine Sample.npm_refresh)
          = Some (File Sample.archive)) as Hentry by (vm_compute; reflexivity).
  assert (lock_tmp Sample.machine (cachePathOf Sample.machine Sample.npm_refresh) w0
          = Done 3%nat
              (outcome_world
                 (lock_tmp Sample.machine (cachePathOf Sample.machine Sample.npm_refresh) w0)))
    as Hlock by (vm_compute; reflexivity).
  destruct (force_refresh_keeps_entry Sample.machine Sample.npm_refresh (VFun 0)
              Sample.raced 3%nat _ (File Sample.archive)
              Hconfig Hwhich Hforce Hcode Hinst Hentry Hlock)
    as (Hrun & Hkept & _).
  eexists. split; [exact Hrun|exact Hkept].
Defined.

Lemma writer_releases_lock_witness :
  ∃ w',
    archiveDependencies Sample.machine Sample.npm
      (cacheDirectoryOf Sample.machine Sample.npm) Sample.cache_file ignore
      Sample.installed_world
    = Done tt w'
    ∧ locks w' !! 3%nat = None
    ∧ fs w' !! (Sample.cache_file +:+ "~") = None.
Proof.
  set (w0 := logged Sample.installed_world
               [LogInfo "[npm] archiving dependencies from /work/node_modules"]).
  assert (exists_at Sample.machine Sample.installed_world
            (getAbsolutePath Sample.machine (installDirectory Sample.npm)) = true) as Hinst
    by (vm_compute; reflexivity).
  assert (lock_tmp Sample.machine Sample.cache_file w0
          = Done 3%nat (outcome_world (lock_tmp Sample.machine Sample.cache_file w0)))
    as Hlock by (vm_compute; reflexivity).
  assert (exists_at Sample.machine
            (outcome_world (lock_tmp Sample.machine Sample.cache_file w0))
            Sample.cache_file = false) as Hfree
    by (vm_compute; reflexivity).
  destruct (writer_releases_lock Sample.machine Sample.npm
              (cacheDirectoryOf Sample.machine Sample.npm) Sample.cache_file
              Sample.installed_world 3%nat _ Hinst Hlock Hfree eq_refl eq_refl eq_refl)
    as (w' & Hrun & Hlocks & _ & Htmp & _).
  exists w'. split; [exact (Hrun ignore)|]. split; [exact Hlocks|exact Htmp].
Defined.

Lemma reader_releases_lock_witness :
  ∃ w',
    extractDependencies Sample.machine Sample.npm Sample.cache_file ignore Sample.cached
    = Done tt w'
    ∧ locks w' !! 3%nat = None
    ∧ open_files w' !! 3%nat = Some Sample.cache_file.
Proof.
  assert (cleared (getAbsolutePath Sample.machine (installDirectory Sample.npm))
            (fs Sample.cached) !! abs Sample.machine Sample.cache_file
          = Some (File (Targz [("node_modules", Dir);
                               ("node_modules/left-pad.js", File (Bytes "pad"))])))
    as Hentry by (vm_compute; reflexivity).
  destruct (reader_releases_lock Sample.machine Sample.npm Sample.cache_file Sample.cached
              _ Hentry eq_refl eq_refl eq_refl)
    as (w' & Hrun & Hlocks & Hopen).
  exists w'. split; [exact (Hrun ignore)|]. split; [exact Hlocks|exact Hopen].
Defined.

Lemma extract_removes_nested_cache_witness :
  ∃ w',
    extractDependencies Sample.machine Scenario.nested
      (cachePathOf Sample.machine Scenario.nested) ignore Scenario.nested_world
    = Thrown (VError ("ENOENT: no such file or directory, open "
                      +:+ "/work/node_modules/.cache/npm/10.0.0/abc123.tar.gz")) w'
    ∧ fs w' !! "/work/node_modules/.cache/npm/10.0.0/abc123.tar.gz" = None.
Proof.
  assert (under (getAbsolutePath Sample.machine (installDirectory Scenario.nested))
            (abs Sample.machine (cachePathOf Sample.machine Scenario.nested)) = true)
    as Hunder by (vm_compute; reflexivity).
  destruct (extract_removes_nested_cache Sample.machine Scenario.nested
              (cachePathOf Sample.machine Scenario.nested) ignore Scenario.nested_world
              Hunder)
    as (w' & Hrun & _ & Hgone & _).
  exists w'. split; [exact Hrun|exact Hgone].
Defined.

Lemma extraction_restores_what_was_archived_witness :
  ∃ w',
    extractDependencies Sample.machine Sample.npm Sample.cache_file ignore Scenario.packed
    = Done tt w'
    ∧ fs w' !! "/work/node_modules" = Some Dir
    ∧ fs w' !! "/work/node_modules/left-pad.js" = Some (File (Bytes "pad")).
Proof.
  assert (Path.plain (installDirectory Sample.npm) = true) as Hplain
    by (vm_compute; reflexivity).
  assert (tidy Sample.machine (getAbsolutePath Sample.machine (installDirectory Sample.npm))
            Scenario.restored_from) as Htidy
    by (apply tidyb_sound; vm_compute; reflexivity).
  assert (cleared (getAbsolutePath Sample.machine (installDirectory Sample.npm))
            (fs Scenario.packed) !! abs Sample.machine Sample.cache_file
          = Some (File (Targz
                    (pack (abs Sample.machine
                             (getAbsolutePath Sample.machine (installDirectory Sample.npm)))
                          Scenario.restored_from))))
    as Hentry by (vm_compute; reflexivity).
  destruct (extraction_restores_what_was_archived Sample.machine Sample.npm
              Sample.cache_file Scenario.packed Scenario.restored_from
              Hplain Htidy Hentry eq_refl eq_refl eq_refl)
    as (w' & Hrun & Hsame & _).
  exists w'. split; [exact (Hrun ignore)|].
  split; rewrite Hsame by (vm_compute; reflexivity); vm_compute; reflexivity.
Defined.


Lemma managers_lookup_witness :
  (Registry.getAvailableManagers Scenario.dirname Scenario.files None).1 !! "npm"
  = Some "/usr/lib/node_modules/npm-cache/cacheDependencyManagers/npmConfig.js"
  ∧ Registry.getAvailableManagers Scenario.dirname []
      (Registry.getAvailableManagers Scenario.dirname Scenario.files None).2
    = Registry.getAvailableManagers Scenario.dirname Scenario.files None.
Proof.
  assert ("npm" ≠ "__proto__") as Hname by discriminate.
  destruct (managers_lookup Scenario.dirname Scenario.files [] "npm" Hname)
    as [Hlookup Hmemo].
  split; [|exact Hmemo].
  rewrite Hlookup. vm_compute. reflexivity.
Defined.

Lemma load_tasks_of_command_line_witness :
  ∃ w',
    Cli.loadTasksOf Sample.machine Scenario.require Scenario.inherited
      ["install"; "bower"; "gulp"; "npm"] "/home/u/.package_cache" Sample.fresh
    = Done [loadTask Sample.machine Scenario.bower "/home/u/.package_cache";
            loadTask Sample.machine Sample.npm "/home/u/.package_cache"] w'
    ∧ trace w' = [LogInfo "installing bower dependencies";
                  LogInfo "installing npm dependencies"].
Proof.
  assert (∀ name, name ∈ Cli.specifiedManagers ["install"; "bower"; "gulp"; "npm"] →
                  Cli.own Cli.availableManagers name = None →
                  existsb (String.eqb name) Scenario.inherited = false) as Hnames.
  { intros name Hin Hown. vm_compute in Hin.
    repeat (apply elem_of_cons in Hin as [->|Hin]); try reflexivity; try discriminate Hown.
    by apply elem_of_nil in Hin. }
  destruct (load_tasks_of_command_line Sample.machine Scenario.require Scenario.inherited
              ["install"; "bower"; "gulp"; "npm"] "/home/u/.package_cache" Sample.fresh
              Hnames) as [Hrun _].
  eexists. split; [exact Hrun|]. vm_compute. reflexivity.
Defined.

Lemma inherited_name_throws_witness :
  ∃ w',
    Cli.installDependencies Sample.machine Scenario.require Scenario.inherited
      ["install"; "bower"; "toString"; "npm"] "/home/u/.package_cache" Sample.fresh
    = Thrown (VError "path must be a string") w'
    ∧ last (trace w') = Some (LogInfo "installing toString dependencies")
    ∧ fs Sample.fresh !! "/home/u/.package_cache" = None
    ∧ is_Some (fs w' !! "/home/u/.package_cache").
Proof.
  assert (∀ n, n ∈ ["install"; "bower"] →
               Cli.own Cli.availableManagers n = None →
               existsb (String.eqb n) Scenario.inherited = false) as Hbefore.
  { intros n Hin Hown.
    repeat (apply elem_of_cons in Hin as [->|Hin]); try reflexivity; try discriminate Hown.
    by apply elem_of_nil in Hin. }
  assert ("/home/u/.package_cache" ≠ "") as Hdir by discriminate.
  assert (existsb (is_file (fs Sample.fresh))
            (ancestors (abs Sample.machine "/home/u/.package_cache")) = false) as Hfree
    by (vm_compute; reflexivity).
  destruct (inherited_name_throws Sample.machine Scenario.require Scenario.inherited
              ["install"; "bower"; "toString"; "npm"] "/home/u/.package_cache"
              Sample.fresh ["install"; "bower"] ["npm"] "toString"
              Hdir (or_intror Hfree) eq_refl Hbefore eq_refl eq_refl)
    as (w' & Hrun & Hlast & Hmade & _).
  exists w'. split; [exact Hrun|]. split; [exact Hlast|].
  split; [vm_compute; reflexivity|exact Hmade].
Defined.

Lemma handler_makes_cache_directory_witness :
  ∃ w',
    Cli.installDependencies Sample.machine Scenario.require Scenario.inherited
      ["install"; "bower"; "gulp"; "npm"] "/home/u/.package_cache" Sample.fresh
    = Done [loadTask Sample.machine Scenario.bower "/home/u/.package_cache";
            loadTask Sample.machine Sample.npm "/home/u/.package_cache"] w'
    ∧ trace w' = [LogInfo "using /home/u/.package_cache as cache directory";
                  LogInfo "creating cache directory";
                  LogInfo "installing bower dependencies";
                  LogInfo "installing npm dependencies"]
    ∧ fs Sample.fresh !! "/home/u/.package_cache" = None
    ∧ is_Some (fs w' !! "/home/u/.package_cache").
Proof.
  assert (∀ name, name ∈ Cli.specifiedManagers ["install"; "bower"; "gulp"; "npm"] →
                  Cli.own Cli.availableManagers name = None →
                  existsb (String.eqb name) Scenario.inherited = false) as Hnames.
  { intros name Hin Hown. vm_compute in Hin.
    repeat (apply elem_of_cons in Hin as [->|Hin]); try reflexivity; try discriminate Hown.
    by apply elem_of_nil in Hin. }
  assert ("/home/u/.package_cache" ≠ "") as Hdir by discriminate.
  assert (existsb (is_file (fs Sample.fresh))
            (ancestors (abs Sample.machine "/home/u/.package_cache")) = false) as Hfree
    by (vm_compute; reflexivity).
  destruct (handler_makes_cache_directory Sample.machine Scenario.require Scenario.inherited
              ["install"; "bower"; "gulp"; "npm"] "/home/u/.package_cache" Sample.fresh
              Hdir (or_intror Hfree) Hnames) as (w' & Hrun & Htrace & Hmade & _).
  exists w'. split; [exact Hrun|]. split; [rewrite Htrace; vm_compute; reflexivity|].
  split; [vm_compute; reflexivity|exact Hmade].
Defined.

Lemma default_cache_directory_witness :
  Cli.defaultCacheDirectory "/work" (Some "/home/u") None None
  = Some "/home/u/.package_cache"
  ∧ Cli.defaultCacheDirectory "/work" (Some "") None (Some "/Users/u")
    = Some "/Users/u/.package_cache".
Proof.
  split.
  - destruct (default_cache_directory "/work" (Some "/home/u") None None)
      as (_ & _ & _ & Hhome).
    apply (Hhome "/home/u"); [reflexivity|by left].
  - destruct (default_cache_directory "/work" (Some "") None (Some "/Users/u"))
      as (_ & _ & _ & Hhome).
    apply (Hhome "/Users/u"); [reflexivity|]. right. right. by repeat split.
Defined.
